(** * TUO admin server (server.js): a shallow embedding and its properties

    The server keeps two language-keyed JSON documents (fleet, gallery) in
    flat files, guards the mutating routes with a session flag, and stores
    uploaded images.  Every route handler of [server.js] is transcribed below
    as a function on an explicit server state; the collaborators the handlers
    call (the file system, express-session, multer, bcrypt, the clock) appear
    as state components, oracles or section variables.

    A [request] is what reaches the route handlers, its JSON body already
    parsed and its session already attached; [handle] takes it through the
    routing table and the error-handling middleware.  [app] is the whole
    chain: it puts [express.json] in front, as the source registers it, on
    the body of the request as it arrives.  What depends on the installed
    releases of express and multer, which the repository does not pin, is a
    parameter ([body_parser], [multer_library]).  The static file routes are
    left out. *)

From Stdlib Require Import ZArith NArith String Ascii List DecimalString.
From Stdlib Require Import DecimalNat DecimalZ.
From stdpp Require Import gmap strings list fin_maps.

#[local] Set Warnings "-register-all".
#[local] Open Scope string_scope.

(** ** Strings *)

(** Strings are sequences of code units; the development covers the code
    units below 256, where ECMAScript's WhiteSpace and LineTerminator are
    TAB, LF, VT, FF, CR, SP and NBSP. *)
Definition is_white_space (c : ascii) : bool :=
  match c with
  | "009" | "010" | "011" | "012" | "013" | " " | "160" => true
  | _ => false
  end%char.

(** [String.prototype.trimStart]. *)
Fixpoint trimStart (s : string) : string :=
  match s with
  | "" => ""
  | String c s' => if is_white_space c then trimStart s' else s
  end.

(** [String.prototype.trimEnd]: the shortest prefix after which only white
    space follows. *)
Fixpoint trimEnd (s : string) : string :=
  match s with
  | "" => ""
  | String c s' =>
      match trimEnd s' with
      | "" => if is_white_space c then "" else String c ""
      | t => String c t
      end
  end.

(** [String.prototype.trim]. *)
Definition trim (s : string) : string := trimEnd (trimStart s).

Definition first_char (s : string) : option ascii :=
  match s with "" => None | String c _ => Some c end.

Fixpoint last_char (s : string) : option ascii :=
  match s with
  | "" => None
  | String c "" => Some c
  | String _ s' => last_char s'
  end.

Definition white (o : option ascii) : bool :=
  match o with Some c => is_white_space c | None => false end.

(** A string is trimmed when it neither starts nor ends with white space. *)
Definition is_trimmed (s : string) : bool :=
  negb (white (first_char s)) && negb (white (last_char s)).

(** Decimal text of an array index and of an integral number, as template
    literals and [String] print them. *)
Definition nat_text (n : nat) : string := NilZero.string_of_uint (Nat.to_uint n).
Definition int_text (z : Z) : string := NilZero.string_of_int (Z.to_int z).

Fixpoint has_char (c : ascii) (s : string) : bool :=
  match s with
  | "" => false
  | String a s' => if Ascii.eqb a c then true else has_char c s'
  end.

Fixpoint all_digits (s : string) : bool :=
  match s with
  | "" => true
  | String c s' => match Ascii.is_nat c with Some _ => all_digits s' | None => false end
  end.

(** ** Errors and completions *)

(** A thrown [Error]; only its [message] is ever looked at. *)
Record Error := mkError { message : string }.

(** The outcome of running a piece of JavaScript: a value, or an exception. *)
Inductive completion (A : Type) : Type :=
  | Return (a : A)
  | Throw (e : Error).
Arguments Return {A} a.
Arguments Throw {A} e.

#[global] Instance completion_bind : MBind completion := λ A B k c,
  match c with
  | Return a => k a
  | Throw e => Throw e
  end.

(** ** JSON values *)

(** What [JSON.parse] produces.  A number is carried as the text
    [Number.prototype.toString] gives it ("0", "-1.5", "1e+21"): the program
    only ever converts numbers to text or tests them for truthiness.
    [undefined] is not a JSON value; an expression that may be [undefined]
    has type [option json]. *)
Inductive json : Type :=
  | JNull
  | JBool (b : bool)
  | JNum (text : string)
  | JStr (s : string)
  | JArr (elems : list json)
  | JObj (props : gmap string json).

Definition TypeError_primitive : Error :=
  mkError "Cannot convert object to primitive value".

(** [ToString], as [String(v)] applies it.  An array joins its elements with
    commas, [null] elements printing as nothing.  An object prints through
    [Object.prototype.toString] unless an own "toString" property (never
    callable in parsed JSON) shadows it, in which case no method yields a
    primitive and a [TypeError] is thrown. *)
Fixpoint ToString (v : json) : completion string :=
  match v with
  | JNull => Return "null"
  | JBool true => Return "true"
  | JBool false => Return "false"
  | JNum t => Return t
  | JStr s => Return s
  | JArr l =>
      (fix join (l : list json) : completion string :=
         match l with
         | [] => Return ""
         | e :: rest =>
             s ← match e with JNull => Return "" | _ => ToString e end;
             match rest with
             | [] => Return s
             | _ => r ← join rest; Return (s +:+ "," +:+ r)
             end
         end) l
  | JObj m =>
      match m !! "toString" with
      | Some _ => Throw TypeError_primitive
      | None => Return "[object Object]"
      end
  end.

(** The values [String] converts without throwing. *)
Fixpoint stringifiable (v : json) : bool :=
  match v with
  | JArr l =>
      (fix all (l : list json) : bool :=
         match l with
         | [] => true
         | e :: rest => stringifiable e && all rest
         end) l
  | JObj m => bool_decide (m !! "toString" = None)
  | _ => true
  end.

(** Truthiness; [None] is [undefined]. *)
Definition truthy (v : option json) : bool :=
  match v with
  | None | Some JNull => false
  | Some (JBool b) => b
  | Some (JNum t) => negb (String.eqb t "0" || String.eqb t "NaN")
  | Some (JStr s) => negb (String.eqb s "")
  | Some (JArr _) | Some (JObj _) => true
  end.

(** [Array.isArray]. *)
Definition isArray (v : option json) : bool :=
  match v with Some (JArr _) => true | _ => false end.

(** [a ?? b]. *)
Definition nullish (a : option json) (b : json) : json :=
  match a with
  | None | Some JNull => b
  | Some v => v
  end.

(** [a || b]. *)
Definition or_else (a : option json) (b : json) : json :=
  match a with
  | Some v => if truthy a then v else b
  | None => b
  end.

(** The index a property key denotes in an array or string of length [n]. *)
Definition index_of_key (k : string) (n : nat) : option nat :=
  List.find (λ i, String.eqb (nat_text i) k) (seq 0 n).

(** Own properties of a value.  Properties inherited from the built-in
    prototypes are functions (or, under "__proto__", the prototype object):
    none of them is an array and none has one of the fixed names the program
    reads ("id", "title", ..., "me", "password"), so a lookup that would reach
    them is rendered as [undefined]. *)
Definition own_property (v : json) (k : string) : option json :=
  match v with
  | JObj m => m !! k
  | JArr l =>
      if String.eqb k "length" then Some (JNum (nat_text (length l)))
      else i ← index_of_key k (length l); l !! i
  | JStr s =>
      if String.eqb k "length" then Some (JNum (nat_text (String.length s)))
      else i ← index_of_key k (String.length s);
           c ← String.get i s; Some (JStr (String c ""))
  | _ => None
  end.

(** [v?.[k]]. *)
Definition Get (v : option json) (k : string) : option json :=
  v ≫= λ x, own_property x k.

(** ** Objects held in memory *)

(** What the prototype slot of an object holds: [Object.prototype] (every
    object [JSON.parse] creates), [null], or a value installed through the
    "__proto__" setter. *)
Inductive prototype : Type :=
  | ObjectPrototype
  | ProtoNull
  | ProtoValue (p : json).

(** A language document in memory: its own properties and its prototype. *)
Record object := mkObject { own : gmap string json; proto : prototype }.

(** The object [JSON.parse] builds from a document. *)
Definition parsed (m : gmap string json) : object := mkObject m ObjectPrototype.

(** [JSON.stringify(o)], given as the document a later [JSON.parse] of the
    text yields: the own properties. *)
Definition JSON_stringify (o : object) : gmap string json := own o.

(** [o?.[k]]: an own property, else what the prototype chain gives. *)
Definition object_get (o : object) (k : string) : option json :=
  match own o !! k with
  | Some v => Some v
  | None =>
      match proto o with
      | ProtoValue p =>
          match own_property p k with
          | Some v => Some v
          | None => if String.eqb k "__proto__" then Some p else None
          end
      | _ => None
      end
  end.

Definition define_own (o : object) (k : string) (v : json) : object :=
  mkObject (<[k := v]> (own o)) (proto o).

(** The "__proto__" setter of [Object.prototype]: an object or [null]
    replaces the prototype, a primitive is ignored. *)
Definition set_prototype (o : object) (v : json) : object :=
  match v with
  | JArr _ | JObj _ => mkObject (own o) (ProtoValue v)
  | JNull => mkObject (own o) ProtoNull
  | _ => o
  end.

(** [o[k] = v].  The assignment creates or updates an own property, except
    that the key "__proto__", when it is not an own property and the chain
    reaches the accessor of [Object.prototype], runs the setter instead. *)
Definition object_set (o : object) (k : string) (v : json) : object :=
  if String.eqb k "__proto__" then
    match own o !! k with
    | Some _ => define_own o k v
    | None =>
        match proto o with
        | ObjectPrototype => set_prototype o v
        | ProtoNull => define_own o k v
        | ProtoValue p =>
            match own_property p k with
            | Some _ => define_own o k v
            | None => set_prototype o v
            end
        end
    end
  else define_own o k v.

(** ** Records *)

Record Vehicle := mkVehicle {
  v_id : string; v_tag : string; v_title : string; v_text : string;
  v_price : string; v_image : string; v_alt : string; v_fuel : string;
  v_transmission : string; v_consumption : string; v_passengers : string }.

Record GalleryItem := mkGalleryItem {
  g_id : string; g_title : string; g_before : string; g_after : string }.

Definition vehicle_fields (r : Vehicle) : list (string * string) :=
  [("id", v_id r); ("tag", v_tag r); ("title", v_title r); ("text", v_text r);
   ("price", v_price r); ("image", v_image r); ("alt", v_alt r);
   ("fuel", v_fuel r); ("transmission", v_transmission r);
   ("consumption", v_consumption r); ("passengers", v_passengers r)].

Definition gallery_fields (r : GalleryItem) : list (string * string) :=
  [("id", g_id r); ("title", g_title r); ("before", g_before r);
   ("after", g_after r)].

(** The object literal a normaliser returns. *)
Definition record_json (fields : list (string * string)) : json :=
  JObj (list_to_map (prod_map id JStr <$> fields)).

(** [const safeString = (value) => String(value ?? "").trim()]. *)
Definition safeString (value : option json) : completion string :=
  s ← ToString (nullish value (JStr "")); Return (trim s).

(** [a || b] on strings. *)
Definition or_string (a b : string) : string :=
  if String.eqb a "" then b else a.

(** The identifier a normaliser synthesises:
    [`custom-${Date.now()}-${index}`], [`gallery-${Date.now()}-${index}`]. *)
Definition generated_id (tag : string) (now : Z) (index : nat) : string :=
  tag +:+ int_text now +:+ "-" +:+ nat_text index.

(** [normalizeVehicle(vehicle, index)]; [now] is what [Date.now()] reads
    during the call. *)
Definition normalizeVehicle (now : Z) (vehicle : json) (index : nat)
  : completion Vehicle :=
  let field k := safeString (Get (Some vehicle) k) in
  id0 ← field "id";
  let id := or_string id0 (generated_id "custom-" now index) in
  tag ← field "tag";
  title ← field "title";
  text ← field "text";
  price ← field "price";
  image ← field "image";
  alt0 ← field "alt";
  alt ← (if String.eqb alt0 "" then
           t ← field "title"; Return (or_string t "Vozilo")
         else Return alt0);
  fuel ← field "fuel";
  transmission ← field "transmission";
  consumption ← field "consumption";
  passengers ← field "passengers";
  Return (mkVehicle id tag title text price image alt fuel transmission
            consumption passengers).

(** [normalizeGalleryItem(item, index)]. *)
Definition normalizeGalleryItem (now : Z) (item : json) (index : nat)
  : completion GalleryItem :=
  let field k := safeString (Get (Some item) k) in
  id0 ← field "id";
  let id := or_string id0 (generated_id "gallery-" now index) in
  title ← field "title";
  before ← field "before";
  after ← field "after";
  Return (mkGalleryItem id title before after).

(** [Array.prototype.map] with a callback that may throw: the callback
    receives each element with its index, from [i] on. *)
Fixpoint map_from {A} (f : json → nat → completion A) (i : nat) (l : list json)
  : completion (list A) :=
  match l with
  | [] => Return []
  | v :: rest => x ← f v i; xs ← map_from f (S i) rest; Return (x :: xs)
  end.

Definition Array_map {A} (f : json → nat → completion A) (l : list json)
  : completion (list A) := map_from f 0 l.

(** ** Server state *)

(** A JSON file on disk.  The files hold language documents, which are JSON
    objects: [content] is the document the file parses to, or [None] when the
    file is missing, unreadable or not valid JSON.  [write_error] is the
    message of the error [fs.writeFileSync] throws on this file, if it throws,
    and [writes] counts the calls of [fs.writeFileSync] made on it. *)
Record file := mkFile {
  content : option (gmap string json);
  write_error : option string;
  writes : nat }.

(** The data [express-session] keeps for one session id; the handlers only
    ever store [admin = true]. *)
Record session := mkSession { admin : option bool }.

Record state := mkState {
  defaultFleet : object;               (* readJson(DEFAULT_FILE, {}) *)
  defaultGallery : object;             (* readJson(GALLERY_DEFAULT_FILE, {}) *)
  DATA_FILE : file;                    (* data/fleet.json *)
  GALLERY_FILE : file;                 (* data/gallery.json *)
  UPLOAD_DIR : gmap string string;     (* uploads/: file name to bytes *)
  upload_error : option string;        (* error of a write into uploads/ *)
  sessions : gmap string session }.    (* the session store *)

(** The two language-keyed stores share their code up to names. *)
Inductive store := Fleet | Gallery.

Definition default_of (d : store) (st : state) : object :=
  match d with Fleet => defaultFleet st | Gallery => defaultGallery st end.

Definition file_of (d : store) (st : state) : file :=
  match d with Fleet => DATA_FILE st | Gallery => GALLERY_FILE st end.

Definition set_default (d : store) (o : object) (st : state) : state :=
  match d with
  | Fleet => mkState o (defaultGallery st) (DATA_FILE st) (GALLERY_FILE st)
               (UPLOAD_DIR st) (upload_error st) (sessions st)
  | Gallery => mkState (defaultFleet st) o (DATA_FILE st) (GALLERY_FILE st)
                 (UPLOAD_DIR st) (upload_error st) (sessions st)
  end.

Definition set_file (d : store) (f : file) (st : state) : state :=
  match d with
  | Fleet => mkState (defaultFleet st) (defaultGallery st) f (GALLERY_FILE st)
               (UPLOAD_DIR st) (upload_error st) (sessions st)
  | Gallery => mkState (defaultFleet st) (defaultGallery st) (DATA_FILE st) f
                 (UPLOAD_DIR st) (upload_error st) (sessions st)
  end.

Definition set_uploads (u : gmap string string) (st : state) : state :=
  mkState (defaultFleet st) (defaultGallery st) (DATA_FILE st) (GALLERY_FILE st)
    u (upload_error st) (sessions st).

Definition set_sessions (s : gmap string session) (st : state) : state :=
  mkState (defaultFleet st) (defaultGallery st) (DATA_FILE st) (GALLERY_FILE st)
    (UPLOAD_DIR st) (upload_error st) s.

(** What [readJson(filePath, fallback)] returns: an object parsed afresh, or
    the [fallback] argument itself, which at every call site is the module's
    default document. *)
Inductive reference : Type :=
  | Fresh (o : object)
  | Fallback.

(** [readJson]: any failure to read or parse is caught. *)
Definition readJson (f : file) : reference :=
  match content f with
  | Some m => Fresh (parsed m)
  | None => Fallback
  end.

(** [readFleet()] / [readGallery()]. *)
Definition readLive (d : store) (st : state) : reference := readJson (file_of d st).

(** The object a reference denotes in a state. *)
Definition deref (d : store) (st : state) (r : reference) : object :=
  match r with
  | Fresh o => o
  | Fallback => default_of d st
  end.

(** [data[k] = v] through a reference: a fresh object is updated locally,
    the fallback is updated where it lives. *)
Definition assign (d : store) (r : reference) (k : string) (v : json) (st : state)
  : state * reference :=
  match r with
  | Fresh o => (st, Fresh (object_set o k v))
  | Fallback => (set_default d (object_set (default_of d st) k v) st, Fallback)
  end.

(** [writeFleet(data)] / [writeGallery(data)].  A write that throws is taken
    to fail before anything reaches the file. *)
Definition writeLive (d : store) (data : object) (st : state)
  : state * completion () :=
  let f := file_of d st in
  match write_error f with
  | Some msg =>
      (set_file d (mkFile (content f) (Some msg) (S (writes f))) st,
       Throw (mkError msg))
  | None =>
      (set_file d (mkFile (Some (JSON_stringify data)) None (S (writes f))) st,
       Return ())
  end.

(** ** Requests and responses *)

Inductive endpoint :=
  | POST_auth_login | GET_auth_me | POST_auth_logout
  | GET_fleet | PUT_fleet | POST_fleet_reset
  | GET_gallery | PUT_gallery | POST_gallery_reset
  | POST_upload.

(** The file part of a multipart body. *)
Record file_part := mkPart {
  fieldname : string; originalname : string; mimetype : string;
  bytes : string }.

(** A request as the router sees it: [body] is [req.body] as [express.json]
    left it, [query_lang] is [req.query.lang], [cookie] the session id.
    [Date_now i] is what [Date.now()] reads while element [i] of the payload
    is normalised ([Date_now 0] also stamps an upload) and [randomBytes] the
    hex text of [crypto.randomBytes(6)]. *)
Record request := mkRequest {
  route : endpoint;
  cookie : string;
  query_lang : option json;
  body : option json;
  part : option file_part;
  Date_now : nat → Z;
  randomBytes : string }.

(** The request with [req.body] set to [b]. *)
Definition with_body (b : option json) (req : request) : request :=
  mkRequest (route req) (cookie req) (query_lang req) b (part req)
    (Date_now req) (randomBytes req).

Record response := mkResponse { status : nat; payload : json }.

(** [res.json(v)] replies 200. *)
Definition json_reply (v : json) : response := mkResponse 200 v.

(** [res.status(code).json({ error: msg })]. *)
Definition error_reply (code : nat) (msg : string) : response :=
  mkResponse code (JObj {[ "error" := JStr msg ]}).

(** A handler runs on the state and replies or throws. *)
Definition handler : Type := request → state → state * completion response.

(** [getLang(req)]. *)
Definition getLang (req : request) : string :=
  let lang := match query_lang req with Some (JStr s) => s | _ => "me" end in
  or_string (trim lang) "me".

(** The session [express-session] attaches to the request. *)
Definition req_session (req : request) (st : state) : session :=
  default (mkSession None) (sessions st !! cookie req).

(** [requireAuth(req, res, next)]. *)
Definition requireAuth (next : handler) : handler := λ req st,
  if truthy (JBool <$> admin (req_session req st)) then next req st
  else (st, Return (error_reply 401 "Unauthorized")).

(** ** The language-keyed stores *)

(** [Array.isArray(doc?.[lang]) ? doc[lang] : (doc?.me || [])]. *)
Definition list_or_me (doc : object) (lang : string) : json :=
  match object_get doc lang with
  | Some (JArr l) => JArr l
  | _ => or_else (object_get doc "me") (JArr [])
  end.

(** [app.get("/api/fleet")] and [app.get("/api/gallery")]. *)
Definition list_route (d : store) : handler := λ req st,
  let lang := getLang req in
  let data := readLive d st in
  let list := list_or_me (deref d st data) lang in
  (st, Return (json_reply list)).

(** [payload.map(normalizeVehicle)] / [payload.map(normalizeGalleryItem)],
    each record as the object literal the normaliser returns. *)
Definition normalize_all (d : store) (clock : nat → Z) (payload : list json)
  : completion (list json) :=
  match d with
  | Fleet =>
      rs ← Array_map (λ v i, normalizeVehicle (clock i) v i) payload;
      Return (map (record_json ∘ vehicle_fields) rs)
  | Gallery =>
      rs ← Array_map (λ v i, normalizeGalleryItem (clock i) v i) payload;
      Return (map (record_json ∘ gallery_fields) rs)
  end.

(** A submitted record every property of which [String] converts. *)
Definition printable (v : json) : Prop :=
  ∀ k x, own_property v k = Some x → stringifiable x = true.

(** The identifier a submitted record supplies: [safeString(vehicle?.id)]. *)
Definition supplied_id (v : json) : completion string :=
  safeString (Get (Some v) "id").

(** The prefix of the identifiers each store synthesises. *)
Definition id_tag (d : store) : string :=
  match d with Fleet => "custom-" | Gallery => "gallery-" end.

(** The "id" of a returned record. *)
Definition id_of (rec : json) : option string :=
  match own_property rec "id" with Some (JStr s) => Some s | _ => None end.

(** A returned record all of whose fields are trimmed strings. *)
Definition trimmed_record (rec : json) : Prop :=
  ∃ m, rec = JObj m ∧
       ∀ k x, m !! k = Some x → ∃ s, x = JStr s ∧ is_trimmed s = true.

Arguments normalize_all : simpl never.

(** [Array.isArray(req.body) ? req.body : []]. *)
Definition body_array (req : request) : list json :=
  match body req with Some (JArr l) => l | _ => [] end.

(** The tail shared by replace and reset: [data[lang] = list],
    [writeFleet(data)], [res.json(list)]. *)
Definition store_list (d : store) (lang : string) (list : json) (st : state)
  : state * completion response :=
  let data := readLive d st in
  let '(st1, data1) := assign d data lang list st in
  match writeLive d (deref d st1 data1) st1 with
  | (st2, Throw e) => (st2, Throw e)
  | (st2, Return _) => (st2, Return (json_reply list))
  end.

Arguments store_list : simpl never.

(** [app.put("/api/fleet")] and [app.put("/api/gallery")], past the guard. *)
Definition replace_route (d : store) : handler := λ req st,
  let lang := getLang req in
  let payload := body_array req in
  match normalize_all d (Date_now req) payload with
  | Throw e => (st, Throw e)
  | Return normalized => store_list d lang (JArr normalized) st
  end.

(** [app.post("/api/fleet/reset")] and [app.post("/api/gallery/reset")], past
    the guard.  [readFleet()] comes first, as in the source; it touches
    nothing. *)
Definition reset_route (d : store) : handler := λ req st,
  let lang := getLang req in
  let fallback := list_or_me (default_of d st) lang in
  store_list d lang fallback st.

(** [typeof req.body?.password === "string" ? req.body.password : ""]. *)
Definition submitted_password (req : request) : string :=
  match Get (body req) "password" with Some (JStr s) => s | _ => "" end.

(** ** The JSON body parser *)

(** The body of a request as it arrives, before [express.json] has looked
    at it: nothing to parse (the request has no body, or its Content-Type is
    not application/json, as for a multipart upload); a JSON body that cannot
    be read (unsupported charset or content encoding, aborted transfer), with
    the error that raises; or the text of a JSON body. *)
Inductive entity : Type :=
  | NoJson
  | Undecodable (err : Error)
  | JsonText (text : string).

(** What depends on the release of express that is installed (the
    repository pins none) and on the JavaScript engine: [JSON.parse], giving
    the value or the [SyntaxError] it throws; the errors [express.json]
    raises on its own account, for a body beyond the limit and for a text
    that strict mode turns away; and whether [req.body] is initialised to an
    empty object when nothing is parsed (express 4) or left [undefined]
    (express 5). *)
Record body_parser := mkParser {
  JSON_parse : string → completion json;
  entity_too_large : Error;
  strict_violation : string → Error;
  initialises_body : bool }.

(** [express.json({ limit: "2mb" })]. *)
Definition limit : N := 2 * 1024 * 1024.

(** The first character of a text that is not SP, TAB, LF or CR. *)
Fixpoint firstchar (s : string) : option ascii :=
  match s with
  | "" => None
  | String c s' =>
      match c with
      | " " | "009" | "010" | "013" => firstchar s'
      | _ => Some c
      end%char
  end.

(** Strict mode (the default, which the server keeps): only a text that
    starts an object or an array is handed to [JSON.parse]. *)
Definition strict (text : string) : bool :=
  match firstchar text with
  | Some "{"%char | Some "["%char => true
  | _ => false
  end.

(** [req.body] when nothing was parsed. *)
Definition unparsed_body (lib : body_parser) : option json :=
  if initialises_body lib then Some (JObj ∅) else None.

(** The middleware [express.json({ limit: "2mb" })], from its documented
    behaviour: it yields the request with [req.body] set, or the error it
    passes to [next]. *)
Definition express_json (lib : body_parser) (e : entity) (req : request)
  : completion request :=
  match e with
  | NoJson => Return (with_body (unparsed_body lib) req)
  | Undecodable err => Throw err
  | JsonText text =>
      if (limit <? N.of_nat (String.length text))%N then
        Throw (entity_too_large lib)
      else if String.eqb text "" then Return (with_body (Some (JObj ∅)) req)
      else if strict text then
        v ← JSON_parse lib text; Return (with_body (Some v) req)
      else Throw (strict_violation lib text)
  end.

(** ** Uploads *)

(** [limits: { fileSize: 5 * 1024 * 1024 }]. *)
Definition fileSize : N := 5 * 1024 * 1024.

(** [fileFilter]: [cb(null, true)] or [cb(new Error(...))]. *)
Definition fileFilter (f : file_part) : completion bool :=
  if String.prefix "image/" (mimetype f) then Return true
  else Throw (mkError "Only images are allowed").

(** What depends on the release of multer that is installed (the repository
    pins none): the messages of the two errors multer raises on its own
    account, and whether a file of exactly [fileSize] bytes still passes the
    limit. *)
Record multer_library := mkMulter {
  LIMIT_UNEXPECTED_FILE : string;      (* a file in a field that expects none *)
  LIMIT_FILE_SIZE : string;            (* a file beyond limits.fileSize *)
  accepts_at_limit : bool }.

(** A file of [size] bytes is cut off by the size limit. *)
Definition over_limit (lib : multer_library) (size : N) : bool :=
  (fileSize <? size)%N || (negb (accepts_at_limit lib) && (size =? fileSize)%N).

(** [process.env]. *)
Record environment := mkEnv {
  ADMIN_PASSWORD : option string;
  ADMIN_PASSWORD_HASH : option string }.

(** An environment variable that is set and not empty (a truthy string). *)
Definition configured (v : option string) : option string :=
  match v with
  | Some s => if String.eqb s "" then None else Some s
  | None => None
  end.

Section Server.

(** Library functions the server calls. *)
Variable bcrypt_compareSync : string → string → bool.
Variable path_extname : string → string.
Variable toLowerCase : string → string.
Variable env : environment.
Variable multer : multer_library.

(** [verifyPassword(password)]. *)
Definition verifyPassword (password : string) : bool :=
  let plain := ADMIN_PASSWORD env in
  let hash := ADMIN_PASSWORD_HASH env in
  match configured hash with
  | Some h => bcrypt_compareSync password h
  | None =>
      match configured plain with
      | Some p => String.eqb password p
      | None => false
      end
  end.

(** [app.post("/api/auth/login")]. *)
Definition login_route : handler := λ req st,
  let password := submitted_password req in
  if String.eqb password "" then (st, Return (error_reply 400 "Missing password"))
  else if negb (verifyPassword password) then
    (st, Return (error_reply 401 "Invalid password"))
  else
    (set_sessions (<[cookie req := mkSession (Some true)]> (sessions st)) st,
     Return (json_reply (JObj {[ "ok" := JBool true ]}))).

(** [app.get("/api/auth/me")]: [req.session?.admin === true]. *)
Definition me_route : handler := λ req st,
  let authed := bool_decide (admin (req_session req st) = Some true) in
  (st, Return (json_reply (JObj {[ "authed" := JBool authed ]}))).

(** [app.post("/api/auth/logout")]: the session is destroyed. *)
Definition logout_route : handler := λ req st,
  (set_sessions (delete (cookie req) (sessions st)) st,
   Return (json_reply (JObj {[ "ok" := JBool true ]}))).

(** The [filename] callback of [multer.diskStorage]. *)
Definition storage_filename (req : request) (f : file_part) : string :=
  let ext := toLowerCase (path_extname (originalname f)) in
  int_text (Date_now req 0) +:+ "-" +:+ randomBytes req +:+ ext.

(** [upload.single(field)], from multer's documented behaviour: a request
    without a file part passes with [req.file] unset; a file in another field
    is an error; the file of the given field goes through [fileFilter] and is
    then streamed into [UPLOAD_DIR] under the storage file name.  A stream cut
    off by the size limit is an error, and multer then removes what the
    storage wrote: no file is left under that name, not even one that was
    there before.  The result is [req.file.filename], if a file was stored.
    A [file_part] is a part multer treats as a file, one that carries a file
    name. *)
Definition upload_single (field : string) (req : request) (st : state)
  : state * completion (option string) :=
  match part req with
  | None => (st, Return None)
  | Some f =>
      if negb (String.eqb (fieldname f) field) then
        (st, Throw (mkError (LIMIT_UNEXPECTED_FILE multer)))
      else
        match fileFilter f with
        | Throw e => (st, Throw e)
        | Return false => (st, Return None)
        | Return true =>
            let name := storage_filename req f in
            match upload_error st with
            | Some msg => (st, Throw (mkError msg))
            | None =>
                if over_limit multer (N.of_nat (String.length (bytes f))) then
                  (set_uploads (delete name (UPLOAD_DIR st)) st,
                   Throw (mkError (LIMIT_FILE_SIZE multer)))
                else
                  (set_uploads (<[name := bytes f]> (UPLOAD_DIR st)) st,
                   Return (Some name))
            end
        end
  end.

(** [app.post("/api/upload")], past the guard. *)
Definition upload_route : handler := λ req st,
  match upload_single "image" req st with
  | (st1, Throw e) => (st1, Throw e)
  | (st1, Return None) => (st1, Return (error_reply 400 "No file"))
  | (st1, Return (Some filename)) =>
      (st1, Return (json_reply (JObj {[ "url" := JStr ("/uploads/" +:+ filename) ]})))
  end.

(** The error-handling middleware [app.use((err, _req, res, _next) => ...)]. *)
Definition error_middleware (err : option Error) : response :=
  match err with
  | None => error_reply 500 "Server error"
  | Some e => error_reply 400 (or_string (message e) "Bad request")
  end.

(** The routing table. *)
Definition routes (ep : endpoint) : handler :=
  match ep with
  | POST_auth_login => login_route
  | GET_auth_me => me_route
  | POST_auth_logout => logout_route
  | GET_fleet => list_route Fleet
  | PUT_fleet => requireAuth (replace_route Fleet)
  | POST_fleet_reset => requireAuth (reset_route Fleet)
  | GET_gallery => list_route Gallery
  | PUT_gallery => requireAuth (replace_route Gallery)
  | POST_gallery_reset => requireAuth (reset_route Gallery)
  | POST_upload => requireAuth upload_route
  end.

(** One request through the router, past [express.json] and the session
    middleware: the matching route runs, and an exception it throws is handed
    to the error-handling middleware. *)
Definition handle (st : state) (req : request) : state * response :=
  match routes (route req) req st with
  | (st1, Return r) => (st1, r)
  | (st1, Throw e) => (st1, error_middleware (Some e))
  end.

(** A sequence of requests, one after the other. *)
Fixpoint run (st : state) (reqs : list request) : state :=
  match reqs with
  | [] => st
  | req :: rest => run (fst (handle st req)) rest
  end.

Variable parser : body_parser.

(** One request through the whole application, as the [app.use] and route
    registrations order it: [express.json] first, then the session and the
    routes.  [req] is the request with [req.body] not yet set and [e] its
    body.  An error of the parser goes straight to the error-handling
    middleware: neither the session middleware nor any route runs. *)
Definition app (st : state) (e : entity) (req : request) : state * response :=
  match express_json parser e req with
  | Throw err => (st, error_middleware (Some err))
  | Return req' => handle st req'
  end.

End Server.

(** ** Vocabulary of the statements *)

Definition list_of (d : store) : endpoint :=
  match d with Fleet => GET_fleet | Gallery => GET_gallery end.
Definition replace_of (d : store) : endpoint :=
  match d with Fleet => PUT_fleet | Gallery => PUT_gallery end.
Definition reset_of (d : store) : endpoint :=
  match d with Fleet => POST_fleet_reset | Gallery => POST_gallery_reset end.

(** The routes registered behind [requireAuth]. *)
Definition guarded (ep : endpoint) : bool :=
  match ep with
  | PUT_fleet | POST_fleet_reset | PUT_gallery | POST_gallery_reset
  | POST_upload => true
  | _ => false
  end.

(** The session of the request carries the admin flag set to [true]. *)
Definition authed (req : request) (st : state) : Prop :=
  admin (req_session req st) = Some true.

#[global] Instance authed_dec req st : Decision (authed req st).
Proof. unfold authed. apply _. Defined.

(** The live document of a store, as [readFleet()] / [readGallery()] give it. *)
Definition live (d : store) (st : state) : object := deref d st (readLive d st).

(** Both live files can be read. *)
Definition readable (st : state) : Prop :=
  is_Some (content (DATA_FILE st)) ∧ is_Some (content (GALLERY_FILE st)).

(** The language a request names: its [lang] query parameter, trimmed, or
    "me" when the parameter is absent, is not a string, or is blank. *)
Definition asks_for (req : request) (lang : string) : Prop :=
  (∃ s, query_lang req = Some (JStr s) ∧ trim s = lang ∧ lang ≠ "") ∨
  ((∀ s, query_lang req = Some (JStr s) → trim s = "") ∧ lang = "me").

(** The document the routes of a store work on is the ordinary object with
    the properties [doc]: what the live file parses to or, when the file
    cannot be read, the default document in memory. *)
Definition holds_document (d : store) (st : state) (doc : gmap string json)
  : Prop :=
  content (file_of d st) = Some doc ∨
  (content (file_of d st) = None ∧ default_of d st = parsed doc).

(** What a document yields for a language: the list at the language key if
    that key holds a list; otherwise what it holds at "me" if that is truthy
    (the "me" list, in a document that maps languages to lists), and the
    empty list if "me" is absent or holds a falsy value. *)
Definition lang_list (doc : gmap string json) (lang : string) (v : json) : Prop :=
  (∀ l, doc !! lang = Some (JArr l) → v = JArr l) ∧
  (isArray (doc !! lang) = false →
     (∀ x, doc !! "me" = Some x → truthy (Some x) = true → v = x) ∧
     (truthy (doc !! "me") = false → v = JArr [])).

(** Everything the server keeps apart from the sessions: the default
    documents, the two files, the upload directory. *)
Definition stored (st : state)
  : object * object * file * file * gmap string string * option string :=
  (defaultFleet st, defaultGallery st, DATA_FILE st, GALLERY_FILE st,
   UPLOAD_DIR st, upload_error st).

(** No session of the store carries the admin flag. *)
Definition no_admin (st : state) : Prop :=
  ∀ c s, sessions st !! c = Some s → admin s ≠ Some true.

(** The other store. *)
Definition other (d : store) : store :=
  match d with Fleet => Gallery | Gallery => Fleet end.

#[global] Instance store_eq_dec : EqDecision store.
Proof. solve_decision. Defined.

(** The routes of a store. *)
Definition route_of_store (d : store) (ep : endpoint) : Prop :=
  ep = list_of d ∨ ep = replace_of d ∨ ep = reset_of d.

(** ** Start-up *)

(** What the module finds on disk when it is loaded: the two defaults files
    (the document each parses to, or [None] when it cannot be read), whether
    [DATA_DIR] and each live file exist, and the message of the error
    [fs.mkdirSync] throws, if it throws. *)
Record disk := mkDisk {
  DEFAULT_FILE : option (gmap string json);
  GALLERY_DEFAULT_FILE : option (gmap string json);
  DATA_DIR_exists : bool;
  mkdir_error : option string;
  live_exists : store → bool }.

(** [readJson(DEFAULT_FILE, {})]: here the fallback is a fresh empty object. *)
Definition readDefault (f : option (gmap string json)) : object :=
  parsed (default ∅ f).

(** One live file of [ensureDataFile]:
    [if (!fs.existsSync(FILE)) fs.writeFileSync(FILE, JSON.stringify(defaults, null, 2))]. *)
Definition ensure_file (dk : disk) (d : store) (st : state)
  : state * completion () :=
  if live_exists dk d then (st, Return ())
  else writeLive d (default_of d st) st.

(** [ensureDataFile()]. *)
Definition ensureDataFile (dk : disk) (st : state) : state * completion () :=
  let mkdir :=
    if DATA_DIR_exists dk then Return ()
    else match mkdir_error dk with
         | Some msg => Throw (mkError msg)
         | None => Return ()
         end in
  match mkdir with
  | Throw e => (st, Throw e)
  | Return _ =>
      match ensure_file dk Fleet st with
      | (st1, Throw e) => (st1, Throw e)
      | (st1, Return _) => ensure_file dk Gallery st1
      end
  end.

(** The module's top level up to the call of [ensureDataFile()]: the default
    documents are read, then the live files ensured.  [fleet] and [gallery]
    are the live files as found, [uploads] the upload directory; the session
    store starts empty. *)
Definition startup (dk : disk) (fleet gallery : file)
  (uploads : gmap string string) (uploads_error : option string)
  : state * completion () :=
  ensureDataFile dk
    (mkState (readDefault (DEFAULT_FILE dk)) (readDefault (GALLERY_DEFAULT_FILE dk))
       fleet gallery uploads uploads_error ∅).

(** ** Sample collaborators and states

    Concrete stand-ins for the library functions, and small server states,
    on which the general statements below are exercised. *)

Definition sample_compare (password hash : string) : bool :=
  String.eqb hash ("$2a$10$" +:+ password).
Definition sample_extname (name : string) : string := ".png".
Definition sample_lower (s : string) : string := s.
Definition sample_env : environment := mkEnv (Some "tuo-admin") None.
Definition sample_multer : multer_library :=
  mkMulter "Unexpected field" "File too large" false.
Definition sample_clock (i : nat) : Z := 1700000000000.

(** A stand-in for [JSON.parse] that knows a few texts. *)
Definition sample_parse (text : string) : completion json :=
  if String.eqb text "{}" then Return (JObj ∅)
  else if String.eqb text "[]" then Return (JArr [])
  else if String.eqb text "[{},{}]" then Return (JArr [JObj ∅; JObj ∅])
  else if String.eqb text "5" then Return (JNum "5")
  else Throw (mkError "Unexpected end of JSON input").
Definition sample_parser : body_parser :=
  mkParser sample_parse (mkError "request entity too large")
    (λ _, mkError "Unexpected token in JSON at position 0") true.

Definition golf : json := JObj {[ "id" := JStr "golf"; "title" := JStr "Golf 7" ]}.
Definition polo : json := JObj {[ "id" := JStr "polo"; "title" := JStr "Polo" ]}.

Definition sample_default : object := parsed {[ "me" := JArr [golf; polo] ]}.

(** Live files present and writable, nobody logged in. *)
Definition sample_state : state :=
  mkState sample_default (parsed ∅)
    (mkFile (Some {[ "me" := JArr [golf] ]}) None 0) (mkFile (Some ∅) None 0)
    ∅ None ∅.

(** The same with session "s1" logged in. *)
Definition sample_admin_state : state :=
  set_sessions {[ "s1" := mkSession (Some true) ]} sample_state.

(** [fleet.json] exists but does not parse (say, it is empty). *)
Definition sample_corrupt_state : state :=
  set_file Fleet (mkFile None None 0) sample_admin_state.

(** [fleet.json] cannot be written. *)
Definition sample_readonly_state : state :=
  set_file Fleet
    (mkFile (Some {[ "me" := JArr [golf] ]})
       (Some "EACCES: permission denied, open '/srv/tuo/server/data/fleet.json'") 0)
    sample_admin_state.

(** A payload: one record without an id, one with. *)
Definition two_cars : list json :=
  [JObj {[ "title" := JStr " Car A " ]};
   JObj {[ "id" := JStr "b-7"; "title" := JStr "Car B" ]}].

(** A login body. *)
Definition credentials (password : string) : option json :=
  Some (JObj {[ "password" := JStr password ]}).

Definition png : file_part := mkPart "image" "Golf.PNG" "image/png" "PNG-bytes".
Definition pdf : file_part := mkPart "image" "price-list.pdf" "application/pdf" "PDF-bytes".

Definition sample_request (ep : endpoint) (sid : string) (lang : option string)
  (b : option json) : request :=
  mkRequest ep sid (JStr <$> lang) b None sample_clock "a1b2c3d4e5f6".

Definition sample_upload (sid : string) (f : file_part) : request :=
  mkRequest POST_upload sid None None (Some f) sample_clock "a1b2c3d4e5f6".

Definition sample_serve : state → request → state * response :=
  handle sample_compare sample_extname sample_lower sample_env sample_multer.

Definition sample_app : state → entity → request → state * response :=
  app sample_compare sample_extname sample_lower sample_env sample_multer
    sample_parser.

(** The record of the specification's example and what it normalises to. *)
Definition car_a_json : json := JObj {[ "title" := JStr " Car A " ]}.
Definition car_a : Vehicle :=
  mkVehicle "custom-1700000000000-0" "" "Car A" "" "" "" "Car A" "" "" "" "".

Definition pair_json : json := JObj {[ "title" := JStr "Bumper" ]}.
Definition pair_item : GalleryItem :=
  mkGalleryItem "gallery-1700000000000-0" "Bumper" "" "".

(** No credential configured. *)
Definition open_env : environment := mkEnv None None.

(** A first start: no data directory, no live file. *)
Definition sample_disk : disk :=
  mkDisk (Some {[ "me" := JArr [golf; polo] ]}) None false None (λ _, false).

Definition missing_file : file := mkFile None None 0.

(** A record [String] cannot convert. *)
Definition unprintable : json := JObj {[ "id" := JObj {[ "toString" := JNull ]} ]}.

(** * Properties *)

(** ** The definitions at work *)

Example trim_both_ends :
  trim ("  Car A " +:+ String "009" (String "160" "")) = "Car A".
Proof. reflexivity. Qed.

Example trim_all_white : trim "   " = "".
Proof. reflexivity. Qed.

Example String_of_array :
  ToString (JArr [JNum "1"; JNull; JArr [JStr "x"; JStr "y"]; JBool true])
  = Return "1,,x,y,true".
Proof. reflexivity. Qed.

Example String_of_object : ToString (JObj {[ "a" := JNull ]}) = Return "[object Object]".
Proof. reflexivity. Qed.

Example String_of_shadowed_toString :
  ToString (JObj {[ "toString" := JNum "1" ]}) = Throw TypeError_primitive.
Proof. reflexivity. Qed.

Example getLang_default : getLang (sample_request GET_fleet "s1" None None) = "me".
Proof. reflexivity. Qed.

Example getLang_blank : getLang (sample_request GET_fleet "s1" (Some "  ") None) = "me".
Proof. reflexivity. Qed.

Example getLang_trims : getLang (sample_request GET_fleet "s1" (Some " en ") None) = "en".
Proof. reflexivity. Qed.

(** The example of the specification: [{"title":"Car A"}] normalises to a
    record with a generated id, "alt" taken from the title and every other
    field empty. *)
Example normalize_car_a :
  normalizeVehicle 1700000000000 (JObj {[ "title" := JStr "Car A" ]}) 0
  = Return (mkVehicle "custom-1700000000000-0" "" "Car A" "" "" "" "Car A"
              "" "" "" "").
Proof. reflexivity. Qed.

Example normalize_null_record :
  normalizeGalleryItem 5 JNull 3 = Return (mkGalleryItem "gallery-5-3" "" "" "").
Proof. reflexivity. Qed.

Example assignment_under_proto_key :
  own (object_set (parsed {[ "me" := JArr [] ]}) "__proto__" (JArr [golf]))
  = {[ "me" := JArr [] ]}.
Proof. reflexivity. Qed.

Example assignment_under_proto_own_key :
  own (object_set (parsed {[ "__proto__" := JNull ]}) "__proto__" (JArr [golf]))
  = {[ "__proto__" := JArr [golf] ]}.
Proof. vm_compute. reflexivity. Qed.

Example upload_of_a_pdf :
  sample_serve sample_admin_state (sample_upload "s1" pdf)
  = (sample_admin_state, error_reply 400 "Only images are allowed").
Proof. reflexivity. Qed.

Example logout_forgets_the_session :
  admin (req_session (sample_request GET_auth_me "s1" None None)
           (sample_serve sample_admin_state
              (sample_request POST_auth_logout "s1" None None)).1) = None.
Proof. reflexivity. Qed.

(** ** Trimming *)

Lemma trimStart_first s : white (first_char (trimStart s)) = false.
Proof.
  induction s as [|c s IH]; simpl; [done|].
  destruct (is_white_space c) eqn:Hc; simpl; [done|by rewrite Hc].
Qed.

Lemma trimEnd_first s :
  first_char (trimEnd s) = None ∨ first_char (trimEnd s) = first_char s.
Proof.
  destruct s as [|c s]; simpl; [by left|].
  destruct (trimEnd s); [destruct (is_white_space c)|]; auto.
Qed.

Lemma trimEnd_last s : white (last_char (trimEnd s)) = false.
Proof.
  induction s as [|c s IH]; simpl; [done|].
  destruct (trimEnd s) as [|a t] eqn:Ht.
  - destruct (is_white_space c) eqn:Hc; simpl; [done|by rewrite Hc].
  - exact IH.
Qed.

Lemma trim_trimmed s : is_trimmed (trim s) = true.
Proof.
  unfold is_trimmed, trim. rewrite trimEnd_last.
  destruct (trimEnd_first (trimStart s)) as [-> | ->]; [done|].
  by rewrite trimStart_first.
Qed.

Lemma trimStart_id s : white (first_char s) = false → trimStart s = s.
Proof. destruct s as [|c s]; simpl; [done|]. by intros ->. Qed.

Lemma trimEnd_id s : white (last_char s) = false → trimEnd s = s.
Proof.
  induction s as [|c s IH]; [done|].
  destruct s as [|a s].
  - simpl. by intros ->.
  - intros H. change (trimEnd (String c (String a s))) with
      (match trimEnd (String a s) with
       | "" => if is_white_space c then "" else String c ""
       | t => String c t
       end).
    rewrite IH; [done|exact H].
Qed.

(** Trimming a trimmed string changes nothing. *)
Lemma trim_id s : is_trimmed s = true → trim s = s.
Proof.
  unfold is_trimmed, trim. intros [H1 H2]%andb_prop.
  apply negb_true_iff in H1, H2.
  rewrite trimStart_id by done. by apply trimEnd_id.
Qed.

Lemma trim_idempotent s : trim (trim s) = trim s.
Proof. apply trim_id, trim_trimmed. Qed.

(** ** Decimal text *)

Lemma uint_all_digits d : all_digits (NilEmpty.string_of_uint d) = true.
Proof. induction d; simpl; auto. Qed.

Lemma nat_text_digits n : all_digits (nat_text n) = true.
Proof.
  unfold nat_text, NilZero.string_of_uint.
  destruct (Nat.to_uint n) eqn:E; try done; rewrite <- E; apply uint_all_digits.
Qed.

Lemma nat_text_inj i j : nat_text i = nat_text j → i = j.
Proof.
  unfold nat_text. intros H.
  apply DecimalNat.Unsigned.to_uint_inj.
  assert (Hnn : ∀ n, Nat.to_uint n ≠ Decimal.Nil).
  { intros n Hn. pose proof (DecimalNat.Unsigned.to_of (Nat.to_uint n)) as Hu.
    rewrite DecimalNat.Unsigned.of_to in Hu. rewrite Hn in Hu at 2.
    destruct n; simpl in Hu; [by rewrite Hn in Hu; discriminate Hu|].
    rewrite Hn in Hu. discriminate Hu. }
  pose proof (NilZero.usu _ (Hnn i)) as Hi.
  pose proof (NilZero.usu _ (Hnn j)) as Hj.
  rewrite H in Hi. congruence.
Qed.

Lemma nat_text_nonempty n : nat_text n ≠ "".
Proof.
  unfold nat_text. intros H.
  assert (Hs : NilZero.uint_of_string (nat_text n) = NilZero.uint_of_string "")
    by (unfold nat_text; by rewrite H).
  destruct (Nat.to_uint n) eqn:E; simpl in H; discriminate H.
Qed.

Lemma digits_no_dash s : all_digits s = true → has_char "-" s = false.
Proof.
  induction s as [|c s IH]; simpl; [done|].
  destruct (Ascii.is_nat c) eqn:Hc; [|done]. intros H.
  destruct (Ascii.eqb c "-") eqn:E; [|auto].
  apply Ascii.eqb_eq in E. subst c. discriminate Hc.
Qed.

Lemma digit_not_white c n : Ascii.is_nat c = Some n → is_white_space c = false.
Proof.
  destruct c as [[] [] [] [] [] [] [] []]; simpl; intros H;
    first [discriminate H | reflexivity].
Qed.

Lemma digits_last_not_white s : all_digits s = true → white (last_char s) = false.
Proof.
  induction s as [|c s IH]; simpl; [done|].
  destruct (Ascii.is_nat c) eqn:Hc; [|done]. intros H.
  destruct s; simpl; [by eapply digit_not_white|by apply IH].
Qed.

Lemma has_char_app c a b : has_char c (a +:+ b) = has_char c a || has_char c b.
Proof.
  induction a as [|x a IH]; [done|].
  change (String x a +:+ b) with (String x (a +:+ b)). simpl.
  by destruct (Ascii.eqb x c).
Qed.

Lemma last_char_app a b : b ≠ "" → last_char (a +:+ b) = last_char b.
Proof.
  intros Hb. induction a as [|x a IH]; [done|].
  change (String x a +:+ b) with (String x (a +:+ b)).
  destruct (a +:+ b) eqn:E; [|exact IH].
  destruct a; [simpl in E; by subst|discriminate E].
Qed.

Lemma app_nonempty a b : b ≠ "" → a +:+ b ≠ "".
Proof. intros Hb. destruct a; [done|discriminate]. Qed.

(** The text after the last dash determines a string built as
    [x +:+ "-" +:+ d] with [d] free of dashes. *)
Lemma dash_suffix_inj x x' d d' :
  has_char "-" d = false → has_char "-" d' = false →
  x +:+ "-" +:+ d = x' +:+ "-" +:+ d' → d = d'.
Proof.
  intros Hd Hd'. revert x'.
  induction x as [|c x IH]; intros [|c' x'] H.
  - by injection H.
  - change (String "-" d = String c' (x' +:+ "-" +:+ d')) in H.
    injection H as _ ->. rewrite has_char_app in Hd.
    apply orb_false_elim in Hd as [_ Hd]. discriminate Hd.
  - change (String c (x +:+ "-" +:+ d) = String "-" d') in H.
    injection H as _ <-. rewrite has_char_app in Hd'.
    apply orb_false_elim in Hd' as [_ Hd']. discriminate Hd'.
  - change (String c (x +:+ "-" +:+ d) = String c' (x' +:+ "-" +:+ d')) in H.
    injection H as _ H. by apply (IH x').
Qed.

Lemma generated_id_inj tag now now' i j :
  generated_id tag now i = generated_id tag now' j → i = j.
Proof.
  unfold generated_id. intros H%(inj (String.app tag)).
  apply nat_text_inj.
  eapply dash_suffix_inj; [| |exact H]; apply digits_no_dash, nat_text_digits.
Qed.

Lemma generated_id_last tag now i : white (last_char (generated_id tag now i)) = false.
Proof.
  unfold generated_id.
  pose proof (nat_text_nonempty i) as Hi.
  rewrite !last_char_app by auto using app_nonempty.
  apply digits_last_not_white, nat_text_digits.
Qed.

Lemma generated_id_trimmed tag now i :
  tag ≠ "" → white (first_char tag) = false →
  is_trimmed (generated_id tag now i) = true.
Proof.
  intros Ht Hw. unfold is_trimmed. rewrite generated_id_last.
  unfold generated_id. destruct tag as [|c tag]; [done|].
  change (first_char (String c tag +:+ _)) with (Some c).
  simpl in *. by rewrite Hw.
Qed.

Lemma generated_id_nonempty tag now i : generated_id tag now i ≠ "".
Proof.
  unfold generated_id. repeat apply app_nonempty. apply nat_text_nonempty.
Qed.

(** ** Normalisers *)

Lemma safeString_trimmed v s : safeString v = Return s → is_trimmed s = true.
Proof.
  unfold safeString. destruct (ToString _); simpl; [|done].
  intros [= <-]. apply trim_trimmed.
Qed.

Lemma or_string_trimmed a b :
  is_trimmed a = true → is_trimmed b = true → is_trimmed (or_string a b) = true.
Proof. unfold or_string. by destruct (String.eqb a ""). Qed.

Lemma or_string_nonempty a b : b ≠ "" → or_string a b ≠ "".
Proof.
  unfold or_string. destruct (String.eqb a "") eqn:E; [done|].
  intros _. by apply String.eqb_neq in E.
Qed.

Lemma or_string_left a b : a ≠ "" → or_string a b = a.
Proof. unfold or_string. intros H%String.eqb_neq. by rewrite H. Qed.

(** Splits a successful sequence of [safeString] calls into its steps. *)
Ltac split_binds H :=
  repeat match type of H with
  | context [safeString ?v] =>
      let E := fresh "E" in
      destruct (safeString v) eqn:E; simpl in H; [|discriminate H];
      apply safeString_trimmed in E
  end.

Lemma normalizeVehicle_fields now v i r :
  normalizeVehicle now v i = Return r →
  ∃ id0, supplied_id v = Return id0 ∧
    v_id r = or_string id0 (generated_id "custom-" now i) ∧
    Forall (λ kv, is_trimmed kv.2 = true) (vehicle_fields r).
Proof.
  unfold normalizeVehicle, supplied_id. intros H.
  destruct (safeString (Get (Some v) "id")) as [id0|] eqn:Eid; [|discriminate H].
  exists id0. split; [done|]. simpl in H.
  apply safeString_trimmed in Eid.
  split_binds H.
  assert (Hgen : is_trimmed (generated_id "custom-" now i) = true)
    by (by apply generated_id_trimmed).
  destruct (String.eqb _ "") eqn:Ealt in H; simpl in H; split_binds H;
    injection H as <-; (split; [done|]); simpl;
    repeat constructor; simpl; auto using or_string_trimmed.
Qed.

Lemma normalizeGalleryItem_fields now v i r :
  normalizeGalleryItem now v i = Return r →
  ∃ id0, supplied_id v = Return id0 ∧
    g_id r = or_string id0 (generated_id "gallery-" now i) ∧
    Forall (λ kv, is_trimmed kv.2 = true) (gallery_fields r).
Proof.
  unfold normalizeGalleryItem, supplied_id. intros H.
  destruct (safeString (Get (Some v) "id")) as [id0|] eqn:Eid; [|discriminate H].
  exists id0. split; [done|]. simpl in H.
  apply safeString_trimmed in Eid.
  split_binds H.
  assert (Hgen : is_trimmed (generated_id "gallery-" now i) = true)
    by (by apply generated_id_trimmed).
  injection H as <-. split; [done|]. simpl.
  repeat constructor; simpl; auto using or_string_trimmed.
Qed.

(** Induction on JSON values that reaches into arrays. *)
Lemma json_array_ind (P : json → Prop) :
  P JNull → (∀ b, P (JBool b)) → (∀ t, P (JNum t)) → (∀ s, P (JStr s)) →
  (∀ l, Forall P l → P (JArr l)) → (∀ m, P (JObj m)) → ∀ v, P v.
Proof.
  intros Hnull Hbool Hnum Hstr Harr Hobj.
  fix IH 1. intros [| b | t | s | l | m].
  - exact Hnull.
  - apply Hbool.
  - apply Hnum.
  - apply Hstr.
  - apply Harr. induction l as [|e l IHl]; constructor; [apply IH|exact IHl].
  - apply Hobj.
Qed.

Lemma ToString_total v : stringifiable v = true → ∃ s, ToString v = Return s.
Proof.
  induction v as [| [] | t | s | l IH | m] using json_array_ind; simpl; eauto.
  - induction IH as [|e l He _ IHl]; [eauto|].
    intros [H1 H2]%andb_prop.
    destruct (IHl H2) as [r Hr].
    assert (∃ s, match e with JNull => Return "" | _ => ToString e end = Return s)
      as [s Hs] by (destruct e; eauto).
    rewrite Hs. simpl. destruct l; [eauto|]. rewrite Hr. simpl. eauto.
  - intros H%bool_decide_eq_true. rewrite H. eauto.
Qed.

Lemma safeString_total v k : printable v → ∃ s, safeString (Get (Some v) k) = Return s.
Proof.
  intros Hv. unfold safeString. simpl.
  assert (stringifiable (nullish (own_property v k) (JStr "")) = true) as Hs.
  { destruct (own_property v k) as [x|] eqn:E; [|done].
    apply Hv in E. by destruct x. }
  destruct (ToString_total _ Hs) as [s ->]. simpl. eauto.
Qed.

Ltac run_binds Hv :=
  simpl;
  repeat match goal with
  | |- context [safeString (own_property ?v ?k)] =>
      let s := fresh "s" in let E := fresh "E" in
      destruct (safeString_total v k Hv) as [s E]; simpl in E; rewrite E; simpl
  end.

Lemma normalizeVehicle_total now v i :
  printable v → ∃ r, normalizeVehicle now v i = Return r.
Proof.
  intros Hv. unfold normalizeVehicle. run_binds Hv.
  destruct (String.eqb _ ""); simpl; run_binds Hv; eauto.
Qed.

Lemma normalizeGalleryItem_total now v i :
  printable v → ∃ r, normalizeGalleryItem now v i = Return r.
Proof. intros Hv. unfold normalizeGalleryItem. run_binds Hv. eauto. Qed.

Lemma map_from_spec {A} (f : json → nat → completion A) i l rs :
  map_from f i l = Return rs →
  length rs = length l ∧
  ∀ k v, l !! k = Some v → ∃ r, rs !! k = Some r ∧ f v (i + k) = Return r.
Proof.
  revert i rs. induction l as [|x l IH]; intros i rs; simpl.
  - intros [= <-]. split; [done|]. intros k v H. by rewrite lookup_nil in H.
  - destruct (f x i) as [r|] eqn:Ex; [|done]. simpl.
    destruct (map_from f (S i) l) as [rs'|] eqn:El; [|done]. simpl.
    intros [= <-]. destruct (IH _ _ El) as [Hlen Hk].
    split; [simpl; by rewrite Hlen|].
    intros [|k] v; simpl.
    + intros [= <-]. exists r. by rewrite Nat.add_0_r.
    + intros Hv. destruct (Hk _ _ Hv) as (r' & ? & ?). exists r'.
      by rewrite Nat.add_succ_r.
Qed.

Lemma map_from_total {A} (f : json → nat → completion A) i l :
  (∀ k v, l !! k = Some v → ∃ r, f v (i + k) = Return r) →
  ∃ rs, map_from f i l = Return rs.
Proof.
  revert i. induction l as [|x l IH]; intros i H; simpl; [eauto|].
  destruct (H 0 x eq_refl) as [r Hr]. rewrite Nat.add_0_r in Hr. rewrite Hr. simpl.
  destruct (IH (S i)) as [rs ->]; [|simpl; eauto].
  intros k v Hv. destruct (H (S k) v Hv) as [r' Hr'].
  exists r'. by rewrite Nat.add_succ_r in Hr'.
Qed.

Lemma record_json_trimmed fs :
  Forall (λ kv, is_trimmed kv.2 = true) fs → trimmed_record (record_json fs).
Proof.
  intros Hfs. eexists; split; [reflexivity|].
  intros k x Hk%elem_of_list_to_map_2.
  apply list_elem_of_fmap in Hk as ([k' s] & [= -> ->] & Hin).
  exists s. split; [done|].
  by apply (proj1 (Forall_forall _ _) Hfs _ Hin).
Qed.

Lemma id_of_record s rest : id_of (record_json (("id", s) :: rest)) = Some s.
Proof. unfold id_of, record_json. simpl. by rewrite lookup_insert_eq. Qed.

(** What [payload.map(normalize...)] yields, element by element. *)
Lemma normalize_all_spec d clock L recs :
  normalize_all d clock L = Return recs →
  length recs = length L ∧
  ∀ k v, L !! k = Some v →
    ∃ rec id0, recs !! k = Some rec ∧ trimmed_record rec ∧
      supplied_id v = Return id0 ∧
      id_of rec = Some (or_string id0 (generated_id (id_tag d) (clock k) k)).
Proof.
  destruct d; unfold normalize_all, Array_map; simpl;
    destruct (map_from _ 0 L) as [rs|] eqn:E; simpl; try done;
    intros [= <-]; apply map_from_spec in E as [Hlen Hk];
    (split; [by rewrite length_map|]);
    intros k v Hv; destruct (Hk _ _ Hv) as (r & Hr & Hn); simpl in Hn.
  - apply normalizeVehicle_fields in Hn as (id0 & Hid & Hrid & Hfs).
    exists (record_json (vehicle_fields r)), id0.
    rewrite list_lookup_fmap, Hr. simpl.
    repeat split; auto using record_json_trimmed.
    unfold vehicle_fields. by rewrite id_of_record, Hrid.
  - apply normalizeGalleryItem_fields in Hn as (id0 & Hid & Hrid & Hfs).
    exists (record_json (gallery_fields r)), id0.
    rewrite list_lookup_fmap, Hr. simpl.
    repeat split; auto using record_json_trimmed.
    unfold gallery_fields. by rewrite id_of_record, Hrid.
Qed.

Lemma normalize_all_total d clock L :
  Forall printable L → ∃ recs, normalize_all d clock L = Return recs.
Proof.
  intros HL. assert (Hk : ∀ k v, L !! k = Some v → printable v).
  { intros k v Hv. eapply (proj1 (Forall_forall _ _) HL), list_elem_of_lookup; eauto. }
  destruct d; unfold normalize_all, Array_map.
  - destruct (map_from_total (λ v i, normalizeVehicle (clock i) v i) 0 L) as [rs ->];
      [|simpl; eauto].
    intros k v Hv. apply normalizeVehicle_total; eauto.
  - destruct (map_from_total (λ v i, normalizeGalleryItem (clock i) v i) 0 L) as [rs ->];
      [|simpl; eauto].
    intros k v Hv. apply normalizeGalleryItem_total; eauto.
Qed.

Lemma normalize_all_nil d clock : normalize_all d clock [] = Return [].
Proof. by destruct d. Qed.

(** ** The routes *)

Lemma requireAuth_pass next req st :
  authed req st → requireAuth next req st = next req st.
Proof. unfold authed, requireAuth. by intros ->. Qed.

Lemma requireAuth_deny next req st :
  ¬ authed req st →
  requireAuth next req st = (st, Return (error_reply 401 "Unauthorized")).
Proof.
  unfold authed, requireAuth. by destruct (admin (req_session req st)) as [[]|].
Qed.

(** [store_list] spelled out: the list is assigned in the live document,
    which is the default document itself when the file could not be read, and
    the document is written once. *)
Lemma store_list_unfold d lang list st :
  store_list d lang list st =
    let o := object_set (live d st) lang list in
    let st1 := match content (file_of d st) with
               | Some _ => st
               | None => set_default d o st
               end in
    let f := file_of d st in
    match write_error f with
    | Some msg =>
        (set_file d (mkFile (content f) (Some msg) (S (writes f))) st1,
         Throw (mkError msg))
    | None =>
        (set_file d (mkFile (Some (own o)) None (S (writes f))) st1,
         Return (json_reply list))
    end.
Proof.
  unfold store_list, live, readLive, readJson, writeLive.
  destruct d; simpl;
    match goal with
    | |- context [content ?f] =>
        destruct (content f) eqn:?; destruct (write_error f) eqn:?; simpl
    end; repeat match goal with H : _ = _ |- _ => rewrite H end; reflexivity.
Qed.

Lemma object_set_own o k v :
  k ≠ "__proto__" → own (object_set o k v) = <[k := v]> (own o).
Proof.
  intros Hk%String.eqb_neq. unfold object_set. by rewrite Hk.
Qed.

Lemma object_get_parsed m k : object_get (parsed m) k = m !! k.
Proof. unfold object_get, parsed. simpl. by destruct (m !! k). Qed.

Lemma file_of_set_file d f st : file_of d (set_file d f st) = f.
Proof. by destruct d. Qed.

Lemma file_of_set_default d o st : file_of d (set_default d o st) = file_of d st.
Proof. by destruct d. Qed.

(** After a successful [store_list] under an ordinary key, the live document
    read back holds the list at that key. *)
Lemma store_list_read_back d lang list st :
  write_error (file_of d st) = None → lang ≠ "__proto__" →
  ∃ st', store_list d lang list st = (st', Return (json_reply list)) ∧
         object_get (live d st') lang = Some list.
Proof.
  intros Hw Hk. rewrite store_list_unfold. simpl. rewrite Hw.
  eexists; split; [reflexivity|].
  unfold live, readLive, readJson. rewrite file_of_set_file. simpl.
  by rewrite object_get_parsed, object_set_own, lookup_insert_eq.
Qed.

(** When the live file cannot be read, [store_list] assigns into the default
    document itself, whether or not the write that follows succeeds. *)
Lemma store_list_on_fallback d lang list st :
  content (file_of d st) = None →
  default_of d (store_list d lang list st).1
  = object_set (default_of d st) lang list.
Proof.
  intros Hc. rewrite store_list_unfold. simpl. rewrite Hc.
  unfold live, readLive, readJson. rewrite Hc. simpl.
  by destruct (write_error (file_of d st)); destruct d.
Qed.

Lemma list_or_me_spec doc lang : lang_list doc lang (list_or_me (parsed doc) lang).
Proof.
  unfold lang_list, list_or_me. rewrite !object_get_parsed. split.
  - by intros l ->.
  - intros Harr.
    assert (Hme : match doc !! lang with
                  | Some (JArr l) => JArr l
                  | _ => or_else (doc !! "me") (JArr [])
                  end = or_else (doc !! "me") (JArr [])).
    { by destruct (doc !! lang) as [[]|]. }
    rewrite Hme. unfold or_else. split.
    + intros x Hx Ht. rewrite Hx. by rewrite Ht.
    + intros Hf. destruct (doc !! "me"); [by rewrite Hf|done].
Qed.

Lemma getLang_asked req lang : asks_for req lang → getLang req = lang.
Proof.
  unfold getLang. intros [(s & -> & <- & Hne) | [Hblank ->]].
  - by apply or_string_left.
  - destruct (query_lang req) as [[]|]; try done. by rewrite (Hblank _ eq_refl).
Qed.

Lemma live_document d st doc : holds_document d st doc → live d st = parsed doc.
Proof.
  unfold live, readLive, readJson. intros [H | [H Hd]]; rewrite H; simpl; done.
Qed.

(** What [express.json] lets through is the request with its body set. *)
Lemma express_json_sets_body lib e req req' :
  express_json lib e req = Return req' → ∃ b, req' = with_body b req.
Proof.
  unfold express_json.
  destruct e as [| err | text]; [intros [= <-]; by eexists|done|].
  destruct (limit <? _)%N; [done|].
  destruct (String.eqb text ""); [intros [= <-]; by eexists|].
  destruct (strict text); [|done].
  destruct (JSON_parse lib text); [|done]. intros [= <-]. by eexists.
Qed.

Section Properties.

Variable bcrypt_compareSync : string → string → bool.
Variable path_extname : string → string.
Variable toLowerCase : string → string.
Variable env : environment.
Variable multer : multer_library.
Variable parser : body_parser.

#[local] Abbreviation serve := (handle bcrypt_compareSync path_extname toLowerCase env multer).
#[local] Abbreviation verify := (verifyPassword bcrypt_compareSync env).
#[local] Abbreviation application :=
  (app bcrypt_compareSync path_extname toLowerCase env multer parser).

(** A request the parser lets through goes on to the routes with its body
    set; one it refuses is answered by the error-handling middleware, and
    nothing else runs. *)
Lemma app_accepted st e req req' :
  express_json parser e req = Return req' → application st e req = serve st req'.
Proof. unfold app. by intros ->. Qed.

Lemma app_refused st e req err :
  express_json parser e req = Throw err →
  application st e req = (st, error_reply 400 (or_string (message err) "Bad request")).
Proof. unfold app. by intros ->. Qed.

Lemma app_without_body st req :
  application st NoJson req = serve st (with_body (unparsed_body parser) req).
Proof. done. Qed.

Lemma guard_denies st req :
  guarded (route req) = true → ¬ authed req st →
  serve st req = (st, error_reply 401 "Unauthorized").
Proof.
  intros Hg Hs. unfold handle.
  destruct (route req); try discriminate Hg; simpl;
    by rewrite requireAuth_deny.
Qed.

(** C1, amended.  A request to one of the guarded routes (PUT /api/fleet,
    POST /api/fleet/reset, PUT /api/gallery, POST /api/gallery/reset,
    POST /api/upload) whose session does not carry the admin flag set to true
    leaves the whole server state (both documents, the default documents, the
    upload directory, the sessions) as it was: the route handler is not
    reached.  It is answered 401 with an error body when [express.json],
    which runs ahead of the guard, lets the request through, and 400 with the
    message of the parser's error when the parser refuses its body. *)
Theorem unauthorized_is_rejected st e req :
  guarded (route req) = true →
  admin (req_session req st) ≠ Some true →
  (application st e req).1 = st ∧
  (∀ req', express_json parser e req = Return req' →
     (application st e req).2 = error_reply 401 "Unauthorized") ∧
  (∀ err, express_json parser e req = Throw err →
     (application st e req).2
     = error_reply 400 (or_string (message err) "Bad request")).
Proof.
  intros Hg Hs.
  assert (Hpass : ∀ req', express_json parser e req = Return req' →
            application st e req = (st, error_reply 401 "Unauthorized")).
  { intros req' He. rewrite (app_accepted _ _ _ _ He).
    apply express_json_sets_body in He as [b ->]. by apply guard_denies. }
  split; [|split].
  - destruct (express_json parser e req) as [req'|err] eqn:He.
    + by rewrite (Hpass _ eq_refl).
    + by rewrite (app_refused _ _ _ _ He).
  - intros req' He. by rewrite (Hpass _ He).
  - intros err He. by rewrite (app_refused _ _ _ _ He).
Qed.

(** X28.  What [express.json] turns away never reaches the session or a
    route, whatever the route and whoever asks: a JSON body beyond 2 MiB, one
    that does not start an object or an array, one that [JSON.parse] rejects
    and one that cannot be read are each answered 400 with a JSON object
    holding a non-empty error message, and the state is left as it was. *)
Theorem refused_body_is_answered_400 st text req :
  let refused e :=
    (application st e req).1 = st ∧
    status (application st e req).2 = 400 ∧
    ∃ m, m ≠ "" ∧ payload (application st e req).2 = JObj {[ "error" := JStr m ]} in
  ((limit < N.of_nat (String.length text))%N → refused (JsonText text)) ∧
  (text ≠ "" → strict text = false → refused (JsonText text)) ∧
  (text ≠ "" → (∃ err, JSON_parse parser text = Throw err) →
   refused (JsonText text)) ∧
  (∀ err, refused (Undecodable err)).
Proof.
  assert (Hthrow : ∀ e err, express_json parser e req = Throw err →
    (application st e req).1 = st ∧
    status (application st e req).2 = 400 ∧
    ∃ m, m ≠ "" ∧ payload (application st e req).2 = JObj {[ "error" := JStr m ]}).
  { intros e err He. rewrite (app_refused _ _ _ _ He). split; [done|].
    split; [done|]. eexists. split; [|reflexivity]. by apply or_string_nonempty. }
  cbv zeta. split; [|split; [|split]].
  - intros Hbig%N.ltb_lt. eapply Hthrow. unfold express_json. by rewrite Hbig.
  - intros Hne%String.eqb_neq Hstrict.
    destruct (limit <? N.of_nat (String.length text))%N eqn:Hbig;
      eapply Hthrow; unfold express_json; by rewrite Hbig, ?Hne, ?Hstrict.
  - intros Hne%String.eqb_neq [err Herr].
    destruct (limit <? N.of_nat (String.length text))%N eqn:Hbig;
      [eapply Hthrow; unfold express_json; by rewrite Hbig|].
    destruct (strict text) eqn:Hstrict;
      eapply Hthrow; unfold express_json; rewrite Hbig, Hne, Hstrict;
      [by rewrite Herr|done].
  - intros err. by eapply Hthrow.
Qed.

(** C4, amended.  GET /api/fleet and GET /api/gallery read the live
    document and reply 200, leaving everything as it was: with the list the
    document holds at the requested language if that key holds a list;
    otherwise with what it holds at "me" if that is truthy (the "me" list, in
    a document that maps languages to lists); and with the empty list if "me"
    is absent or holds a falsy value.  The reply is never an error. *)
Theorem list_returns_language_list d st req doc lang :
  route req = list_of d → holds_document d st doc → asks_for req lang →
  ∃ v, serve st req = (st, mkResponse 200 v) ∧
    (∀ l, doc !! lang = Some (JArr l) → v = JArr l) ∧
    (isArray (doc !! lang) = false →
       (∀ x, doc !! "me" = Some x → truthy (Some x) = true → v = x) ∧
       (truthy (doc !! "me") = false → v = JArr [])).
Proof.
  intros Hr Hdoc Hlang. exists (list_or_me (parsed doc) lang).
  split; [|apply list_or_me_spec].
  unfold handle. rewrite Hr.
  assert (Hroute : routes bcrypt_compareSync path_extname toLowerCase env multer
                     (list_of d) = list_route d) by (by destruct d).
  rewrite Hroute. unfold list_route.
  fold (live d st). by rewrite (live_document _ _ _ Hdoc), (getLang_asked _ _ Hlang).
Qed.

(** C5.  [verifyPassword]: with a hash configured the result is that of the
    bcrypt comparison against the hash, whatever the plaintext credential;
    with no hash but a plaintext credential configured it is true exactly
    for the password equal to that credential; with neither it is false. *)
Theorem verifyPassword_by_credential password :
  (∀ h, configured (ADMIN_PASSWORD_HASH env) = Some h →
        verify password = bcrypt_compareSync password h) ∧
  (∀ p, configured (ADMIN_PASSWORD_HASH env) = None →
        configured (ADMIN_PASSWORD env) = Some p →
        (verify password = true ↔ password = p)) ∧
  (configured (ADMIN_PASSWORD_HASH env) = None →
   configured (ADMIN_PASSWORD env) = None →
   verify password = false).
Proof.
  unfold verifyPassword. split; [|split].
  - by intros h ->.
  - intros p -> ->. apply String.eqb_eq.
  - by intros -> ->.
Qed.

Lemma routes_replace d :
  routes bcrypt_compareSync path_extname toLowerCase env multer (replace_of d) =
  requireAuth (replace_route d).
Proof. by destruct d. Qed.

Lemma routes_reset d :
  routes bcrypt_compareSync path_extname toLowerCase env multer (reset_of d) =
  requireAuth (reset_route d).
Proof. by destruct d. Qed.

Lemma replace_outcome d st req :
  route req = replace_of d → authed req st →
  serve st req =
    match normalize_all d (Date_now req) (body_array req) with
    | Throw e => (st, error_middleware (Some e))
    | Return recs =>
        match store_list d (getLang req) (JArr recs) st with
        | (st', Return r) => (st', r)
        | (st', Throw e) => (st', error_middleware (Some e))
        end
    end.
Proof.
  intros Hr Ha. unfold handle.
  rewrite Hr, routes_replace, requireAuth_pass by done. unfold replace_route.
  destruct (normalize_all _ _ _); [|done].
  by destruct (store_list _ _ _ _) as [? []].
Qed.

Lemma reset_outcome d st req :
  route req = reset_of d → authed req st →
  serve st req =
    match store_list d (getLang req) (list_or_me (default_of d st) (getLang req)) st with
    | (st', Return r) => (st', r)
    | (st', Throw e) => (st', error_middleware (Some e))
    end.
Proof.
  intros Hr Ha. unfold handle.
  rewrite Hr, routes_reset, requireAuth_pass by done. unfold reset_route.
  by destruct (store_list _ _ _ _) as [? []].
Qed.

Lemma list_outcome d st req :
  route req = list_of d →
  serve st req = (st, json_reply (list_or_me (live d st) (getLang req))).
Proof. intros Hr. unfold handle. rewrite Hr. by destruct d. Qed.

(** What the replace handler does with a list [L] that reaches it. *)
Lemma replace_normalizes d st req L :
  route req = replace_of d → authed req st → body req = Some (JArr L) →
  (Forall printable L → write_error (file_of d st) = None →
   status (serve st req).2 = 200) ∧
  (∀ st' r, serve st req = (st', r) → status r = 200 →
     ∃ recs, payload r = JArr recs ∧ length recs = length L ∧
       (∀ rec, rec ∈ recs →
          trimmed_record rec ∧ ∃ s, id_of rec = Some s ∧ s ≠ "") ∧
       (∀ k v rec s, L !! k = Some v → recs !! k = Some rec →
          supplied_id v = Return s → s ≠ "" → id_of rec = Some s) ∧
       (∀ i j vi vj ri rj, i ≠ j →
          L !! i = Some vi → L !! j = Some vj →
          recs !! i = Some ri → recs !! j = Some rj →
          supplied_id vi = Return "" → supplied_id vj = Return "" →
          id_of ri ≠ id_of rj) ∧
       (getLang req ≠ "__proto__" →
        ∀ req', route req' = list_of d → getLang req' = getLang req →
          serve st' req' = (st', mkResponse 200 (JArr recs)))).
Proof.
  intros Hr Ha Hb.
  rewrite (replace_outcome d st req Hr Ha).
  unfold body_array. rewrite Hb. split.
  - intros HL Hw. destruct (normalize_all_total d (Date_now req) L HL) as [recs ->].
    rewrite store_list_unfold. simpl. by rewrite Hw.
  - intros st' r.
    destruct (normalize_all d (Date_now req) L) as [recs|e] eqn:En;
      [|intros [= <- <-]; discriminate].
    destruct (write_error (file_of d st)) as [msg|] eqn:Hw.
    { rewrite store_list_unfold. simpl. rewrite Hw. intros [= <- <-]. discriminate. }
    intros Hs _.
    apply normalize_all_spec in En as [Hlen Hk].
    assert (Hrecs : ∀ k rec, recs !! k = Some rec →
              ∃ v id0, L !! k = Some v ∧ trimmed_record rec ∧
                supplied_id v = Return id0 ∧
                id_of rec =
                  Some (or_string id0 (generated_id (id_tag d) (Date_now req k) k))).
    { intros k rec Hrec.
      destruct (L !! k) as [v|] eqn:Hv.
      - destruct (Hk _ _ Hv) as (rec' & id0 & Hrec' & ? & ? & ?).
        exists v, id0. by replace rec with rec' by congruence.
      - apply lookup_ge_None in Hv. apply lookup_lt_Some in Hrec. lia. }
    rewrite store_list_unfold in Hs. simpl in Hs. rewrite Hw in Hs.
    injection Hs as <- <-. simpl.
    exists recs. split; [done|]. split; [done|].
    split; [|split; [|split]].
    + intros rec (k & Hrec)%list_elem_of_lookup.
      destruct (Hrecs _ _ Hrec) as (v & id0 & _ & Ht & _ & Hid).
      split; [done|]. eexists; split; [exact Hid|].
      apply or_string_nonempty, generated_id_nonempty.
    + intros k v rec s Hv Hrec Hsup Hne.
      destruct (Hrecs _ _ Hrec) as (v' & id0 & Hv' & _ & Hsup' & Hid).
      assert (v' = v) as -> by congruence.
      assert (id0 = s) as -> by congruence.
      by rewrite Hid, or_string_left.
    + intros i j vi vj ri rj Hij Hvi Hvj Hri Hrj Hsi Hsj.
      destruct (Hrecs _ _ Hri) as (v1 & id1 & Hv1 & _ & Hs1 & Hid1).
      destruct (Hrecs _ _ Hrj) as (v2 & id2 & Hv2 & _ & Hs2 & Hid2).
      assert (v1 = vi) as -> by congruence. assert (v2 = vj) as -> by congruence.
      assert (id1 = "") as -> by congruence. assert (id2 = "") as -> by congruence.
      rewrite Hid1, Hid2. intros [= Heq].
      by apply generated_id_inj in Heq.
    + intros Hproto req' Hr' Hl'.
      rewrite (list_outcome d _ req' Hr'), Hl'. f_equal.
      unfold json_reply. f_equal.
      destruct (store_list_read_back d (getLang req) (JArr recs) st Hw Hproto)
        as (st1 & Hst & Hget).
      rewrite store_list_unfold in Hst. simpl in Hst. rewrite Hw in Hst.
      injection Hst as <-. unfold list_or_me. by rewrite Hget.
Qed.

(** X26.  What a replace does with the list it is sent.  An authenticated
    PUT /api/fleet or PUT /api/gallery whose body the parser reads as the
    list [L] is answered 200 whenever every property of the submitted records
    converts to a string and the document can be written; and whenever it is
    answered 200, the returned list has the length of [L], every field of
    every returned record is a trimmed string, every returned record has a
    non-empty id, a record whose supplied id is non-empty after trimming
    keeps it, the ids generated for records without one are pairwise
    distinct, and, for a language key other than "__proto__", a following
    list for the same language returns that same list. *)
Theorem replace_returns_normalized_list d st e req L :
  route req = replace_of d → authed req st →
  express_json parser e req = Return (with_body (Some (JArr L)) req) →
  (Forall printable L → write_error (file_of d st) = None →
   status (application st e req).2 = 200) ∧
  (∀ st' r, application st e req = (st', r) → status r = 200 →
     ∃ recs, payload r = JArr recs ∧ length recs = length L ∧
       (∀ rec, rec ∈ recs →
          trimmed_record rec ∧ ∃ s, id_of rec = Some s ∧ s ≠ "") ∧
       (∀ k v rec s, L !! k = Some v → recs !! k = Some rec →
          supplied_id v = Return s → s ≠ "" → id_of rec = Some s) ∧
       (∀ i j vi vj ri rj, i ≠ j →
          L !! i = Some vi → L !! j = Some vj →
          recs !! i = Some ri → recs !! j = Some rj →
          supplied_id vi = Return "" → supplied_id vj = Return "" →
          id_of ri ≠ id_of rj) ∧
       (getLang req ≠ "__proto__" →
        ∀ req', route req' = list_of d → getLang req' = getLang req →
          application st' NoJson req' = (st', mkResponse 200 (JArr recs)))).
Proof.
  intros Hr Ha He. rewrite (app_accepted _ _ _ _ He).
  destruct (replace_normalizes d st (with_body (Some (JArr L)) req) L Hr Ha eq_refl)
    as [H200 Hrest].
  split; [done|].
  intros st' r Hs Hst.
  destruct (Hrest st' r Hs Hst) as (recs & ? & ? & ? & ? & ? & Hlist).
  exists recs. repeat (split; [done|]).
  intros Hk req' Hr' Hl'. rewrite app_without_body. by apply Hlist.
Qed.

(** While both live files can be read, no request touches the default
    documents, and the files stay readable. *)
Lemma store_list_preserves d lang list st :
  readable st →
  let st' := (store_list d lang list st).1 in
  readable st' ∧ defaultFleet st' = defaultFleet st ∧
  defaultGallery st' = defaultGallery st.
Proof.
  intros [[m1 H1] [m2 H2]]. rewrite store_list_unfold. unfold readable.
  destruct d; simpl; rewrite ?H1, ?H2;
    match goal with |- context [write_error ?f] => destruct (write_error f) end;
    simpl; rewrite ?H1, ?H2; eauto.
Qed.

Lemma handle_preserves st req :
  readable st →
  readable (serve st req).1 ∧
  defaultFleet (serve st req).1 = defaultFleet st ∧
  defaultGallery (serve st req).1 = defaultGallery st.
Proof.
  intros Hst.
  assert (Hstore : ∀ d lang list,
    let out := store_list d lang list st in
    let st' := (match out with
                | (st1, Return r) => (st1, r)
                | (st1, Throw e) => (st1, error_middleware (Some e))
                end).1 in
    readable st' ∧ defaultFleet st' = defaultFleet st ∧
    defaultGallery st' = defaultGallery st).
  { intros d lang list. pose proof (store_list_preserves d lang list st Hst) as H.
    simpl in *. by destruct (store_list d lang list st) as [? []]. }
  unfold handle.
  destruct (route req); simpl; unfold requireAuth, login_route, me_route,
    logout_route, list_route, replace_route, reset_route, upload_route,
    upload_single;
    repeat match goal with
    | |- context [if ?b then _ else _] => destruct b; simpl
    | |- context [normalize_all ?d ?c ?l] => destruct (normalize_all d c l); simpl
    | |- context [match part ?r with _ => _ end] => destruct (part r); simpl
    | |- context [match fileFilter ?f with _ => _ end] =>
        destruct (fileFilter f) as [[]|]; simpl
    | |- context [match upload_error ?s with _ => _ end] =>
        destruct (upload_error s); simpl
    end; auto; apply Hstore.
Qed.

Lemma run_preserves st reqs :
  readable st →
  readable (run bcrypt_compareSync path_extname toLowerCase env multer st reqs) ∧
  ∀ d, default_of d (run bcrypt_compareSync path_extname toLowerCase env multer st reqs)
       = default_of d st.
Proof.
  revert st. induction reqs as [|req reqs IH]; intros st Hst; simpl.
  - done.
  - destruct (handle_preserves st req Hst) as (Hr & Hf & Hg).
    destruct (IH _ Hr) as [Hr' Hd]. split; [done|].
    intros d. rewrite Hd. by destruct d.
Qed.

Lemma req_session_with_body b req st :
  req_session (with_body b req) st = req_session req st.
Proof. done. Qed.

(** What the replace handler does with a body that is not an array. *)
Lemma replace_of_no_array d st req :
  route req = replace_of d → isArray (body req) = false →
  serve st req = serve st (with_body (Some (JArr [])) req) ∧
  (authed req st → write_error (file_of d st) = None →
   ∃ st', serve st req = (st', mkResponse 200 (JArr [])) ∧
     (getLang req ≠ "__proto__" →
      ∀ req', route req' = list_of d → getLang req' = getLang req →
        serve st' req' = (st', mkResponse 200 (JArr [])))).
Proof.
  intros Hr Hb.
  assert (Hbody : body_array req = []).
  { unfold body_array. by destruct (body req) as [[]|]. }
  split.
  - unfold handle. simpl. rewrite Hr, routes_replace.
    unfold requireAuth. rewrite req_session_with_body.
    destruct (truthy _); [|done].
    unfold replace_route. by rewrite Hbody.
  - intros Ha Hw.
    rewrite (replace_outcome d st req Hr Ha), Hbody, normalize_all_nil.
    rewrite store_list_unfold. simpl. rewrite Hw.
    eexists; split; [reflexivity|].
    intros Hk req' Hr' Hl'.
    rewrite (list_outcome d _ req' Hr'), Hl'. do 2 f_equal.
    destruct (store_list_read_back d (getLang req) (JArr []) st Hw Hk)
      as (st1 & Hs & Hget).
    rewrite store_list_unfold in Hs. simpl in Hs. rewrite Hw in Hs.
    injection Hs as <-. unfold list_or_me. by rewrite Hget.
Qed.

(** C10, amended.  A PUT /api/fleet or PUT /api/gallery whose JSON body the
    parser lets through and which is not an array (an object, or no JSON body
    at all) is not rejected: it is treated exactly as if the empty list had
    been submitted, ending in the same state with the same reply.  When the
    request is authenticated and the document can be written, that reply is
    200 with the empty array, and for a language key other than "__proto__"
    the stored list becomes empty.  A body that is a JSON string or number,
    or any other text that does not start an object or an array, never
    reaches the route: [express.json] refuses it in strict mode, it is
    answered 400 with the parser's message and nothing changes. *)
Theorem non_array_body_is_empty_list d st e req :
  route req = replace_of d →
  (∀ req', express_json parser e req = Return req' →
     isArray (body req') = false →
     application st e req = serve st (with_body (Some (JArr [])) req) ∧
     (∀ e0, express_json parser e0 req = Return (with_body (Some (JArr [])) req) →
        application st e req = application st e0 req) ∧
     (authed req st → write_error (file_of d st) = None →
      ∃ st', application st e req = (st', mkResponse 200 (JArr [])) ∧
        (getLang req ≠ "__proto__" →
         ∀ req1, route req1 = list_of d → getLang req1 = getLang req →
           application st' NoJson req1 = (st', mkResponse 200 (JArr []))))) ∧
  (∀ text, e = JsonText text → (N.of_nat (String.length text) ≤ limit)%N →
     text ≠ "" → strict text = false →
     application st e req =
       (st, error_reply 400
              (or_string (message (strict_violation parser text)) "Bad request"))).
Proof.
  intros Hr. split.
  - intros req' He Hb. rewrite (app_accepted _ _ _ _ He).
    apply express_json_sets_body in He as [b ->].
    destruct (replace_of_no_array d st (with_body b req) Hr Hb) as [Hsame Hrest].
    split; [exact Hsame|]. split.
    + intros e0 He0. by rewrite (app_accepted _ _ _ _ He0), Hsame.
    + intros Ha Hw. destruct (Hrest Ha Hw) as (st' & Hs & Hlist).
      exists st'. split; [done|].
      intros Hk req1 Hr1 Hl1. rewrite app_without_body. by apply Hlist.
  - intros text -> Hlim Hne%String.eqb_neq Hstrict. apply app_refused.
    unfold express_json.
    by rewrite (proj2 (N.ltb_ge _ _) Hlim), Hne, Hstrict.
Qed.

Lemma me_outcome st req :
  route req = GET_auth_me →
  serve st req =
    (st, mkResponse 200
           (JObj {[ "authed" := JBool (bool_decide (authed req st)) ]})).
Proof. intros Hr. unfold handle. by rewrite Hr. Qed.

(** C6, amended.  A login with a non-empty password that verifies succeeds,
    and a following GET /api/auth/me of the same session reports authed true.
    A login with a non-empty password that fails verification is answered
    401, and one with an empty or missing password is answered 400; both
    leave the server state as it was, so a following GET /api/auth/me of a
    session that was not authenticated still reports authed false. *)
Theorem login_then_me st req :
  route req = POST_auth_login →
  let password := submitted_password req in
  let me_reports b st' :=
    ∀ req', route req' = GET_auth_me → cookie req' = cookie req →
      serve st' req' = (st', mkResponse 200 (JObj {[ "authed" := JBool b ]})) in
  (password ≠ "" → verify password = true →
   ∃ st', serve st req = (st', mkResponse 200 (JObj {[ "ok" := JBool true ]})) ∧
          me_reports true st') ∧
  (password ≠ "" → verify password = false →
   serve st req = (st, error_reply 401 "Invalid password") ∧
   (¬ authed req st → me_reports false st)) ∧
  (password = "" →
   serve st req = (st, error_reply 400 "Missing password") ∧
   (¬ authed req st → me_reports false st)).
Proof.
  intros Hr password me_reports.
  assert (Hme : ¬ authed req st → me_reports false st).
  { intros Hn req' Hr' Hc. rewrite (me_outcome _ _ Hr').
    assert (¬ authed req' st) by (unfold authed, req_session in *; by rewrite Hc).
    by rewrite bool_decide_eq_false_2. }
  unfold handle. rewrite Hr. simpl. unfold login_route. fold password.
  split; [|split].
  - intros Hne%String.eqb_neq Hv. rewrite Hne, Hv. simpl.
    eexists; split; [reflexivity|].
    intros req' Hr' Hc. rewrite (me_outcome _ _ Hr').
    rewrite bool_decide_eq_true_2; [done|].
    unfold authed, req_session. simpl. by rewrite Hc, lookup_insert_eq.
  - intros Hne%String.eqb_neq Hv. rewrite Hne, Hv. by simpl.
  - intros ->. by simpl.
Qed.

(** C7, amended.  When persisting the live document fails, that is, when an
    authenticated reset, or an authenticated replace whose records normalise,
    reaches a write that throws, the failure reaches the caller through the
    catch-all handler as a 400 reply whose body is a JSON object with the
    single field "error", holding the message of the thrown error ("Bad
    request" if that message is empty); the write is attempted once, not
    retried. *)
Theorem write_failure_is_reported d st req msg :
  write_error (file_of d st) = Some msg → authed req st →
  route req = reset_of d ∨
    (route req = replace_of d ∧
     ∃ recs, normalize_all d (Date_now req) (body_array req) = Return recs) →
  ∃ st', serve st req =
           (st', mkResponse 400
                   (JObj {[ "error" := JStr (or_string msg "Bad request") ]})) ∧
         writes (file_of d st') = S (writes (file_of d st)).
Proof.
  intros Hw Ha [Hr | (Hr & recs & Hn)].
  - rewrite (reset_outcome d st req Hr Ha), store_list_unfold. simpl. rewrite Hw.
    eexists; split; [reflexivity|]. by rewrite !file_of_set_file.
  - rewrite (replace_outcome d st req Hr Ha), Hn, store_list_unfold. simpl.
    rewrite Hw. eexists; split; [reflexivity|]. by rewrite !file_of_set_file.
Qed.

(** C9, amended.  An authenticated upload of a file whose declared content
    type does not start with "image/" is answered 400 with an error message
    and leaves the upload directory (indeed the whole state) as it was.  A
    file sent in the form field "image" whose content type starts with
    "image/" and whose size is below 5 MiB (or exactly 5 MiB, where the
    installed multer lets that pass) is accepted: it is handed to the storage,
    which writes it to the upload directory under the generated name, and its
    URL is returned with 200; if that write fails, its error is answered
    400 and nothing is stored. *)
Theorem upload_accepts_images_only st req f :
  route req = POST_upload → authed req st → part req = Some f →
  (String.prefix "image/" (mimetype f) = false →
   ∃ msg, msg ≠ "" ∧
     serve st req = (st, mkResponse 400 (JObj {[ "error" := JStr msg ]}))) ∧
  (String.prefix "image/" (mimetype f) = true → fieldname f = "image" →
   (N.of_nat (String.length (bytes f)) < fileSize)%N ∨
   (N.of_nat (String.length (bytes f)) = fileSize ∧ accepts_at_limit multer = true) →
   let name := storage_filename path_extname toLowerCase req f in
   match upload_error st with
   | None =>
       serve st req =
         (set_uploads (<[name := bytes f]> (UPLOAD_DIR st)) st,
          mkResponse 200 (JObj {[ "url" := JStr ("/uploads/" +:+ name) ]}))
   | Some msg => serve st req = (st, error_reply 400 (or_string msg "Bad request"))
   end).
Proof.
  intros Hr Ha Hp. unfold handle. rewrite Hr. simpl.
  rewrite requireAuth_pass by done.
  unfold upload_route, upload_single, fileFilter. rewrite Hp. split.
  - intros ->. destruct (String.eqb (fieldname f) "image"); simpl.
    + by exists "Only images are allowed".
    + eexists. split; [|reflexivity]. by apply or_string_nonempty.
  - intros -> -> Hsize. simpl.
    destruct (upload_error st) as [msg|]; [done|].
    assert (Hin : over_limit multer (N.of_nat (String.length (bytes f))) = false).
    { unfold over_limit. destruct Hsize as [Hlt | [-> ->]].
      - rewrite (proj2 (N.ltb_ge _ _)) by lia.
        rewrite (proj2 (N.eqb_neq _ _)) by lia. by rewrite andb_false_r.
      - by rewrite N.ltb_irrefl. }
    by rewrite Hin.
Qed.

End Properties.

(** ** The statements on the sample server *)

Lemma unauthorized_is_rejected_witness :
  let req := sample_request POST_fleet_reset "s2" (Some "en") None in
  guarded (route req) = true ∧
  admin (req_session req sample_admin_state) ≠ Some true ∧
  sample_app sample_admin_state NoJson req =
    (sample_admin_state, error_reply 401 "Unauthorized").
Proof.
  assert (H : admin (req_session (sample_request POST_fleet_reset "s2" (Some "en") None)
                       sample_admin_state) ≠ Some true)
    by (vm_compute; discriminate).
  split; [reflexivity|]. split; [exact H|].
  destruct (unauthorized_is_rejected sample_compare sample_extname sample_lower
              sample_env sample_multer sample_parser sample_admin_state NoJson
              (sample_request POST_fleet_reset "s2" (Some "en") None) eq_refl H)
    as (Hst & H401 & _).
  rewrite (surjective_pairing (sample_app _ _ _)).
  unfold sample_app. by rewrite Hst, (H401 _ eq_refl).
Defined.

(** C1, as stated, fails for a request whose body the parser refuses: an
    unauthenticated PUT /api/fleet with the JSON body [5] is answered 400,
    not 401 (and changes nothing). *)
Lemma refused_body_is_answered_400_not_401 :
  let req := sample_request PUT_fleet "s2" (Some "en") None in
  guarded (route req) = true ∧
  admin (req_session req sample_admin_state) ≠ Some true ∧
  status (sample_app sample_admin_state (JsonText "5") req).2 = 400 ∧
  status (sample_app sample_admin_state (JsonText "5") req).2 ≠ 401 ∧
  (sample_app sample_admin_state (JsonText "5") req).1 = sample_admin_state.
Proof. vm_compute. repeat split; discriminate. Qed.

Lemma list_returns_language_list_witness :
  let req := sample_request GET_fleet "s2" (Some " fr ") None in
  let doc : gmap string json := {[ "me" := JArr [golf] ]} in
  route req = list_of Fleet ∧ holds_document Fleet sample_state doc ∧
  asks_for req "fr" ∧
  sample_serve sample_state req = (sample_state, mkResponse 200 (JArr [golf])).
Proof.
  assert (Hdoc : holds_document Fleet sample_state {[ "me" := JArr [golf] ]})
    by (by left).
  assert (Hlang : asks_for (sample_request GET_fleet "s2" (Some " fr ") None) "fr")
    by (left; by exists " fr ").
  split; [reflexivity|]. split; [exact Hdoc|]. split; [exact Hlang|].
  destruct (list_returns_language_list sample_compare sample_extname sample_lower
              sample_env sample_multer Fleet sample_state
              (sample_request GET_fleet "s2" (Some " fr ") None)
              {[ "me" := JArr [golf] ]} "fr" eq_refl Hdoc Hlang)
    as (v & Hs & _ & Hme).
  unfold sample_serve. rewrite Hs.
  by rewrite (proj1 (Hme eq_refl) (JArr [golf]) eq_refl eq_refl).
Defined.

(** C4, as stated, fails on a live document whose "me" key holds something
    that is not a list: for a language without a list the reply is that
    value, here the string "abc", which is neither the "me" list nor the
    empty sequence. *)
Lemma me_that_is_no_list_is_served_as_it_is :
  let st := set_file Fleet (mkFile (Some {[ "me" := JStr "abc" ]}) None 0)
              sample_state in
  let req := sample_request GET_fleet "s2" (Some "en") None in
  content (DATA_FILE st) = Some {[ "me" := JStr "abc" ]} ∧
  sample_serve st req = (st, mkResponse 200 (JStr "abc")) ∧
  isArray (Some (JStr "abc")) = false.
Proof. vm_compute. repeat split. Qed.

Lemma verifyPassword_by_credential_witness :
  configured (ADMIN_PASSWORD_HASH sample_env) = None ∧
  configured (ADMIN_PASSWORD sample_env) = Some "tuo-admin" ∧
  (verifyPassword sample_compare sample_env "tuo-admin" = true ↔
   "tuo-admin" = "tuo-admin").
Proof.
  split; [reflexivity|]. split; [reflexivity|].
  apply (proj1 (proj2 (verifyPassword_by_credential sample_compare sample_env
                         "tuo-admin"))); reflexivity.
Defined.

Lemma two_cars_printable : Forall printable two_cars.
Proof.
  repeat constructor; intros k x; unfold own_property.
  - intros [<- <-]%lookup_singleton_Some. reflexivity.
  - intros [[<- <-] | [_ [<- <-]%lookup_singleton_Some]]%lookup_insert_Some;
      reflexivity.
Qed.

Lemma replace_returns_normalized_list_witness :
  let req := sample_request PUT_fleet "s1" (Some "en") None in
  let L := [JObj ∅; JObj ∅] in
  route req = replace_of Fleet ∧ authed req sample_admin_state ∧
  express_json sample_parser (JsonText "[{},{}]") req
    = Return (with_body (Some (JArr L)) req) ∧
  status (sample_app sample_admin_state (JsonText "[{},{}]") req).2 = 200.
Proof.
  split; [reflexivity|]. split; [reflexivity|]. split; [reflexivity|].
  apply (proj1 (replace_returns_normalized_list sample_compare sample_extname
                  sample_lower sample_env sample_multer sample_parser Fleet
                  sample_admin_state (JsonText "[{},{}]")
                  (sample_request PUT_fleet "s1" (Some "en") None)
                  [JObj ∅; JObj ∅] eq_refl eq_refl eq_refl)).
  - repeat constructor; intros k x; unfold own_property;
      by rewrite lookup_empty.
  - reflexivity.
Defined.

(** C2 fails on the code for the language key "__proto__".  On the freshly
    parsed document, [data[lang] = normalized] runs the "__proto__" setter of
    [Object.prototype] instead of creating a property, and
    [JSON.stringify] writes the document without the list: the replace
    replies 200 with the two normalised records, yet the list read next for
    that language is the one-element "me" list. *)
Lemma replace_under_proto_key_is_not_read_back :
  let put := sample_request PUT_fleet "s1" (Some "__proto__") (Some (JArr two_cars)) in
  let get := sample_request GET_fleet "s1" (Some "__proto__") None in
  let (st', r) := sample_serve sample_admin_state put in
  authed put sample_admin_state ∧ status r = 200 ∧
  (sample_serve st' get).2 = mkResponse 200 (JArr [golf]) ∧
  length [golf] ≠ length two_cars.
Proof. vm_compute. repeat split; discriminate. Qed.

(** C3 fails on the code for the language key "__proto__", by the defect
    shown for C2: the reset replies with the default list, but nothing is
    persisted under the key, and the list read next for that language is the
    live "me" list, not the data the reset returned. *)
Lemma reset_under_proto_key_is_not_persisted :
  let reset := sample_request POST_fleet_reset "s1" (Some "__proto__") None in
  let get := sample_request GET_fleet "s1" (Some "__proto__") None in
  let (st', r) := sample_serve sample_admin_state reset in
  authed reset sample_admin_state ∧
  r = mkResponse 200 (JArr [golf; polo]) ∧
  (sample_serve st' get).2 = mkResponse 200 (JArr [golf]) ∧
  (sample_serve st' get).2 ≠ r.
Proof. vm_compute. repeat split; discriminate. Qed.

Lemma non_array_body_is_empty_list_witness :
  let req := sample_request PUT_gallery "s1" (Some "en") None in
  let req' := with_body (Some (JObj ∅)) req in
  route req = replace_of Gallery ∧
  express_json sample_parser (JsonText "{}") req = Return req' ∧
  isArray (body req') = false ∧
  sample_app sample_admin_state (JsonText "{}") req =
    sample_app sample_admin_state (JsonText "[]") req.
Proof.
  split; [reflexivity|]. split; [reflexivity|]. split; [reflexivity|].
  apply (proj1 (proj2 (proj1 (non_array_body_is_empty_list sample_compare
                                sample_extname sample_lower sample_env sample_multer
                                sample_parser Gallery sample_admin_state
                                (JsonText "{}")
                                (sample_request PUT_gallery "s1" (Some "en") None)
                                eq_refl)
                         _ eq_refl eq_refl))).
  reflexivity.
Defined.

(** C10, as stated, fails for a body that is a JSON number (or string): the
    authenticated PUT /api/fleet with the body [5], which [JSON.parse] reads
    as a number, is rejected with 400 and nothing is stored. *)
Lemma number_body_is_answered_400 :
  let req := sample_request PUT_fleet "s1" (Some "en") None in
  authed req sample_admin_state ∧
  JSON_parse sample_parser "5" = Return (JNum "5") ∧
  status (sample_app sample_admin_state (JsonText "5") req).2 = 400 ∧
  status (sample_app sample_admin_state (JsonText "5") req).2 ≠ 200 ∧
  (sample_app sample_admin_state (JsonText "5") req).1 = sample_admin_state.
Proof. vm_compute. repeat split; discriminate. Qed.

(** The defect shown for C2, under an empty replace: for the language key
    "__proto__" the reply is 200 with the empty array, but the list stored
    for that language does not become empty. *)
Lemma empty_replace_under_proto_key_stores_nothing :
  let put := sample_request PUT_fleet "s1" (Some "__proto__") (Some (JObj ∅)) in
  let get := sample_request GET_fleet "s1" (Some "__proto__") None in
  let (st', r) := sample_serve sample_admin_state put in
  authed put sample_admin_state ∧ isArray (body put) = false ∧
  r = mkResponse 200 (JArr []) ∧
  (sample_serve st' get).2 = mkResponse 200 (JArr [golf]) ∧
  JArr [golf] ≠ JArr [].
Proof. vm_compute. repeat split; discriminate. Qed.

Lemma login_then_me_witness :
  let req := sample_request POST_auth_login "s2" None (credentials "tuo-admin") in
  let me := sample_request GET_auth_me "s2" None None in
  route req = POST_auth_login ∧ submitted_password req ≠ "" ∧
  verifyPassword sample_compare sample_env (submitted_password req) = true ∧
  ∃ st', sample_serve sample_state req =
           (st', mkResponse 200 (JObj {[ "ok" := JBool true ]})) ∧
         sample_serve st' me =
           (st', mkResponse 200 (JObj {[ "authed" := JBool true ]})).
Proof.
  assert (Hne : submitted_password
                  (sample_request POST_auth_login "s2" None (credentials "tuo-admin")) ≠ "")
    by (vm_compute; discriminate).
  split; [reflexivity|]. split; [exact Hne|]. split; [reflexivity|].
  destruct (proj1 (login_then_me sample_compare sample_extname sample_lower
                     sample_env sample_multer sample_state
                     (sample_request POST_auth_login "s2" None (credentials "tuo-admin"))
                     eq_refl) Hne eq_refl) as (st' & Hs & Hme).
  exists st'. split; [exact Hs|]. apply Hme; reflexivity.
Defined.

(** C6, as stated, fails for the empty password: verification fails for it,
    but the login is answered 400, not 401. *)
Lemma empty_password_is_answered_400 :
  let req := sample_request POST_auth_login "s2" None (credentials "") in
  verifyPassword sample_compare sample_env (submitted_password req) = false ∧
  status (sample_serve sample_state req).2 = 400 ∧
  status (sample_serve sample_state req).2 ≠ 401.
Proof. vm_compute. repeat split; discriminate. Qed.

Lemma write_failure_is_reported_witness :
  let req := sample_request POST_fleet_reset "s1" (Some "en") None in
  let msg := "EACCES: permission denied, open '/srv/tuo/server/data/fleet.json'" in
  write_error (file_of Fleet sample_readonly_state) = Some msg ∧
  authed req sample_readonly_state ∧ route req = reset_of Fleet ∧
  ∃ st', sample_serve sample_readonly_state req =
           (st', mkResponse 400 (JObj {[ "error" := JStr msg ]})) ∧
         writes (file_of Fleet st') = 1.
Proof.
  split; [reflexivity|]. split; [reflexivity|]. split; [reflexivity|].
  destruct (write_failure_is_reported sample_compare sample_extname sample_lower
              sample_env sample_multer Fleet sample_readonly_state
              (sample_request POST_fleet_reset "s1" (Some "en") None) _
              eq_refl eq_refl (or_introl eq_refl)) as (st' & Hs & Hw).
  exists st'. split; [exact Hs|exact Hw].
Defined.

(** C7, as stated, fails: a replace whose write throws is answered 400, not
    500, and the body carries the message of the file-system error, path
    included. *)
Lemma write_failure_is_answered_400 :
  let req := sample_request PUT_fleet "s1" (Some "en") (Some (JArr two_cars)) in
  is_Some (write_error (DATA_FILE sample_readonly_state)) ∧
  authed req sample_readonly_state ∧
  (sample_serve sample_readonly_state req).2 =
    mkResponse 400
      (JObj {[ "error" :=
          JStr "EACCES: permission denied, open '/srv/tuo/server/data/fleet.json'" ]}) ∧
  status (sample_serve sample_readonly_state req).2 ≠ 500.
Proof. vm_compute. repeat split; eauto; discriminate. Qed.

Lemma upload_accepts_images_only_witness :
  let req := sample_upload "s1" png in
  route req = POST_upload ∧ authed req sample_admin_state ∧ part req = Some png ∧
  String.prefix "image/" (mimetype png) = true ∧ fieldname png = "image" ∧
  (N.of_nat (String.length (bytes png)) < fileSize)%N ∧
  (sample_serve sample_admin_state req).2 =
    mkResponse 200 (JObj {[ "url" := JStr "/uploads/1700000000000-a1b2c3d4e5f6.png" ]}).
Proof.
  assert (Hsize : (N.of_nat (String.length (bytes png)) < fileSize)%N)
    by reflexivity.
  repeat (split; [first [reflexivity | exact Hsize]|]).
  exact (f_equal snd
           (proj2 (upload_accepts_images_only sample_compare sample_extname
                     sample_lower sample_env sample_multer sample_admin_state
                     (sample_upload "s1" png) png eq_refl eq_refl eq_refl)
              eq_refl eq_refl (or_introl Hsize))).
Defined.

(** C9, as stated, fails for an image that is not sent in the form field
    "image": the route is registered with [upload.single("image")], and an
    image of a few bytes in the field "photo" is answered 400 and not
    stored. *)
Lemma image_in_another_field_is_refused :
  let photo := mkPart "photo" "Golf.PNG" "image/png" "PNG-bytes" in
  let req := sample_upload "s1" photo in
  authed req sample_admin_state ∧
  String.prefix "image/" (mimetype photo) = true ∧
  (N.of_nat (String.length (bytes photo)) < fileSize)%N ∧
  status (sample_serve sample_admin_state req).2 = 400 ∧
  (sample_serve sample_admin_state req).1 = sample_admin_state.
Proof. vm_compute. repeat split. Qed.

(** C8 fails on the code.  With [fleet.json] unreadable, [readFleet()]
    hands out the default document itself and an authenticated replace
    writes the submitted list into it: the default document gains the key
    "en", and a later reset of "en" returns the replaced list instead of the
    default list. *)
Theorem replace_on_unreadable_file_mutates_default :
  let put := sample_request PUT_fleet "s1" (Some "en") (Some (JArr two_cars)) in
  let reset := sample_request POST_fleet_reset "s1" (Some "en") None in
  let (st', r) := sample_serve sample_corrupt_state put in
  content (DATA_FILE sample_corrupt_state) = None ∧
  own (defaultFleet sample_corrupt_state) !! "en" = None ∧
  own (defaultFleet st') !! "en" = Some (payload r) ∧
  defaultFleet st' ≠ defaultFleet sample_corrupt_state ∧
  (sample_serve st' reset).2 = mkResponse 200 (payload r) ∧
  payload r ≠ JArr [golf; polo].
Proof. vm_compute. repeat split; discriminate. Qed.

(** * Further properties of the code *)

(** ** [getLang] *)

(** X1.  [getLang] always yields a usable key: it is never empty and never
    starts or ends with white space; it is the trimmed query parameter when
    that is a string with something left after trimming, and "me" when the
    parameter is blank or is not a string (absent, repeated, nested). *)
Theorem getLang_yields_a_key req :
  getLang req ≠ "" ∧ is_trimmed (getLang req) = true ∧
  (∀ s, query_lang req = Some (JStr s) → trim s ≠ "" → getLang req = trim s) ∧
  (∀ s, query_lang req = Some (JStr s) → trim s = "" → getLang req = "me") ∧
  ((∀ s, query_lang req ≠ Some (JStr s)) → getLang req = "me").
Proof.
  unfold getLang. split; [by apply or_string_nonempty|].
  split; [apply or_string_trimmed; [apply trim_trimmed|reflexivity]|].
  split; [|split].
  - intros s -> Hs. by apply or_string_left.
  - by intros s -> ->.
  - intros Hq. destruct (query_lang req) as [[]|]; try reflexivity.
    by destruct (Hq s).
Qed.

(** ** The normalisers *)

Lemma safeString_of_trimmed s :
  is_trimmed s = true → safeString (Some (JStr s)) = Return s.
Proof. intros Hs. unfold safeString. simpl. by rewrite trim_id. Qed.

(** As [split_binds], keeping the equation of each step. *)
Ltac open_binds H :=
  repeat match type of H with
  | context [safeString ?v] =>
      let E := fresh "E" in
      destruct (safeString v) eqn:E; simpl in H; [|discriminate H]
  end.

Lemma normalizeVehicle_alt now v i r :
  normalizeVehicle now v i = Return r →
  ∃ alt0, safeString (Get (Some v) "alt") = Return alt0 ∧
          v_alt r = or_string alt0 (or_string (v_title r) "Vozilo").
Proof.
  unfold normalizeVehicle. intros H. simpl in H. open_binds H.
  match goal with
  | E : safeString (own_property v "alt") = Return ?a |- _ => exists a; split; [exact E|]
  end.
  destruct (String.eqb _ "") eqn:Hblank in H; simpl in H; open_binds H;
    injection H as <-; simpl; unfold or_string; by rewrite Hblank.
Qed.

(** X2.  The "alt" text of a normalised vehicle is never empty: it is the
    supplied alt text when that is not blank, else the title when that is not
    blank, else "Vozilo". *)
Theorem normalizeVehicle_alt_fallback now v i r :
  normalizeVehicle now v i = Return r →
  v_alt r ≠ "" ∧
  (∀ a, safeString (Get (Some v) "alt") = Return a → a ≠ "" → v_alt r = a) ∧
  (safeString (Get (Some v) "alt") = Return "" →
   (v_title r ≠ "" → v_alt r = v_title r) ∧
   (v_title r = "" → v_alt r = "Vozilo")).
Proof.
  intros (alt0 & Ha & Hr)%normalizeVehicle_alt. rewrite Hr, Ha.
  split; [by repeat apply or_string_nonempty|]. split.
  - intros a [= ->] Hne. by apply or_string_left.
  - intros [= ->]. split.
    + intros Hne. unfold or_string at 1. simpl. by apply or_string_left.
    + by intros ->.
Qed.

Lemma vehicle_record_property r :
  let rec := record_json (vehicle_fields r) in
  own_property rec "id" = Some (JStr (v_id r)) ∧
  own_property rec "tag" = Some (JStr (v_tag r)) ∧
  own_property rec "title" = Some (JStr (v_title r)) ∧
  own_property rec "text" = Some (JStr (v_text r)) ∧
  own_property rec "price" = Some (JStr (v_price r)) ∧
  own_property rec "image" = Some (JStr (v_image r)) ∧
  own_property rec "alt" = Some (JStr (v_alt r)) ∧
  own_property rec "fuel" = Some (JStr (v_fuel r)) ∧
  own_property rec "transmission" = Some (JStr (v_transmission r)) ∧
  own_property rec "consumption" = Some (JStr (v_consumption r)) ∧
  own_property rec "passengers" = Some (JStr (v_passengers r)).
Proof. destruct r. repeat split; reflexivity. Qed.

Lemma gallery_record_property r :
  let rec := record_json (gallery_fields r) in
  own_property rec "id" = Some (JStr (g_id r)) ∧
  own_property rec "title" = Some (JStr (g_title r)) ∧
  own_property rec "before" = Some (JStr (g_before r)) ∧
  own_property rec "after" = Some (JStr (g_after r)).
Proof. destruct r. repeat split; reflexivity. Qed.

(** X3.  Normalising a vehicle is idempotent: the record a normalisation
    returns, submitted again at any position and time, is returned as it
    is. *)
Theorem normalizeVehicle_idempotent now v i r now' j :
  normalizeVehicle now v i = Return r →
  normalizeVehicle now' (record_json (vehicle_fields r)) j = Return r.
Proof.
  intros H.
  destruct (normalizeVehicle_alt_fallback _ _ _ _ H) as [Halt _].
  destruct (normalizeVehicle_fields _ _ _ _ H) as (id0 & _ & Hid & Hfs).
  assert (Hidne : v_id r ≠ "")
    by (rewrite Hid; apply or_string_nonempty, generated_id_nonempty).
  destruct (vehicle_record_property r)
    as (P1 & P2 & P3 & P4 & P5 & P6 & P7 & P8 & P9 & P10 & P11).
  unfold vehicle_fields in Hfs.
  repeat match goal with
  | H : Forall _ (_ :: _) |- _ => apply Forall_cons in H as [? H]
  end. simpl in *.
  unfold normalizeVehicle. simpl.
  rewrite P1, P2, P3, P4, P5, P6, P7, P8, P9, P10, P11.
  rewrite !safeString_of_trimmed by done. simpl.
  rewrite (or_string_left _ _ Hidne).
  apply String.eqb_neq in Halt. rewrite Halt. simpl.
  by destruct r.
Qed.

(** X4.  Normalising a gallery item is idempotent in the same way. *)
Theorem normalizeGalleryItem_idempotent now v i r now' j :
  normalizeGalleryItem now v i = Return r →
  normalizeGalleryItem now' (record_json (gallery_fields r)) j = Return r.
Proof.
  intros H.
  destruct (normalizeGalleryItem_fields _ _ _ _ H) as (id0 & _ & Hid & Hfs).
  assert (Hidne : g_id r ≠ "")
    by (rewrite Hid; apply or_string_nonempty, generated_id_nonempty).
  destruct (gallery_record_property r) as (P1 & P2 & P3 & P4).
  unfold gallery_fields in Hfs.
  repeat match goal with
  | H : Forall _ (_ :: _) |- _ => apply Forall_cons in H as [? H]
  end. simpl in *.
  unfold normalizeGalleryItem. simpl.
  rewrite P1, P2, P3, P4.
  rewrite !safeString_of_trimmed by done. simpl.
  rewrite (or_string_left _ _ Hidne).
  by destruct r.
Qed.

Lemma map_from_fixed {A} (f : json → nat → completion A) (g : A → json) i rs :
  (∀ r k, r ∈ rs → f (g r) k = Return r) →
  map_from f i (map g rs) = Return rs.
Proof.
  revert i. induction rs as [|r rs IH]; intros i H; simpl; [done|].
  rewrite H by apply list_elem_of_here. simpl.
  rewrite IH; [done|]. intros r' k Hr'. apply H. by apply list_elem_of_further.
Qed.

Lemma map_from_elem {A} (f : json → nat → completion A) i l rs r :
  map_from f i l = Return rs → r ∈ rs → ∃ v k, f v k = Return r.
Proof.
  revert i rs. induction l as [|x l IH]; intros i rs; simpl.
  - intros [= <-] Hr. by apply elem_of_nil in Hr.
  - destruct (f x i) as [y|] eqn:Ex; [|done]. simpl.
    destruct (map_from f (S i) l) as [rs'|] eqn:El; [|done]. simpl.
    intros [= <-] [-> | Hr]%elem_of_cons; eauto.
Qed.

Lemma normalize_all_idempotent d clock clock' L recs :
  normalize_all d clock L = Return recs →
  normalize_all d clock' recs = Return recs.
Proof.
  destruct d; unfold normalize_all, Array_map;
    destruct (map_from _ 0 L) as [rs|] eqn:E; simpl; try done;
    intros [= <-].
  - rewrite (map_from_fixed _ (record_json ∘ vehicle_fields)); [done|].
    intros r k Hr. destruct (map_from_elem _ _ _ _ _ E Hr) as (v & n & Hn).
    simpl. by eapply normalizeVehicle_idempotent.
  - rewrite (map_from_fixed _ (record_json ∘ gallery_fields)); [done|].
    intros r k Hr. destruct (map_from_elem _ _ _ _ _ E Hr) as (v & n & Hn).
    simpl. by eapply normalizeGalleryItem_idempotent.
Qed.

Lemma ToString_throws v e : ToString v = Throw e → e = TypeError_primitive.
Proof.
  induction v as [| [] | t | s | l IH | m] using json_array_ind; simpl; try done.
  - induction IH as [|x l Hx _ IHl]; [done|].
    destruct (match x with JNull => Return "" | _ => ToString x end) as [sx|ex] eqn:Ex;
      simpl.
    + destruct l; [done|].
      match goal with |- (?c ≫= _) = _ → _ => destruct c eqn:Ej end; simpl; [done|].
      intros [= <-]. by apply IHl.
    + intros [= <-]. apply Hx. by destruct x.
  - destruct (m !! "toString"); [by intros [= <-]|done].
Qed.

Lemma safeString_throws v e : safeString v = Throw e → e = TypeError_primitive.
Proof.
  unfold safeString. destruct (ToString _) eqn:E; simpl; [done|].
  intros [= <-]. by eapply ToString_throws.
Qed.

(** Follows a sequence of [safeString] calls to the one that throws. *)
Ltac find_throw H :=
  repeat match type of H with
  | context [safeString ?v] =>
      let E := fresh "E" in
      destruct (safeString v) eqn:E; simpl in H;
      [|injection H as <-; by eapply safeString_throws]
  end.

Lemma normalizeVehicle_throws now v i e :
  normalizeVehicle now v i = Throw e → e = TypeError_primitive.
Proof.
  unfold normalizeVehicle. intros H. simpl in H. find_throw H.
  destruct (String.eqb _ "") in H; simpl in H; find_throw H; discriminate H.
Qed.

Lemma normalizeGalleryItem_throws now v i e :
  normalizeGalleryItem now v i = Throw e → e = TypeError_primitive.
Proof.
  unfold normalizeGalleryItem. intros H. simpl in H. find_throw H. discriminate H.
Qed.

Lemma map_from_throws {A} (f : json → nat → completion A) i l e :
  map_from f i l = Throw e → ∃ v k, f v k = Throw e.
Proof.
  revert i. induction l as [|x l IH]; intros i; simpl; [done|].
  destruct (f x i) as [y|ex] eqn:Ex; simpl; [|intros [= <-]; eauto].
  destruct (map_from f (S i) l) as [rs|] eqn:El; [done|]. simpl.
  intros [= <-]. eauto.
Qed.

Lemma normalize_all_throws d clock L e :
  normalize_all d clock L = Throw e → e = TypeError_primitive.
Proof.
  destruct d; unfold normalize_all, Array_map;
    destruct (map_from _ 0 L) as [rs|e'] eqn:E; simpl; try done;
    intros [= <-]; apply map_from_throws in E as (v & k & Hv).
  - by eapply normalizeVehicle_throws.
  - by eapply normalizeGalleryItem_throws.
Qed.

(** A record with a property [String] cannot convert among those a
    normaliser reads makes the whole batch throw. *)
Lemma normalize_all_unprintable_id d clock L k v m :
  L !! k = Some v → own_property v "id" = Some (JObj m) → is_Some (m !! "toString") →
  normalize_all d clock L = Throw TypeError_primitive.
Proof.
  intros Hv Hid [x Hx].
  assert (Hs : safeString (Get (Some v) "id") = Throw TypeError_primitive).
  { unfold safeString. simpl. rewrite Hid. simpl. by rewrite Hx. }
  destruct (normalize_all d clock L) as [recs|e] eqn:E.
  - apply normalize_all_spec in E as [_ Hk].
    destruct (Hk _ _ Hv) as (rec & id0 & _ & _ & Hsup & _).
    unfold supplied_id in Hsup. rewrite Hs in Hsup. discriminate Hsup.
  - by rewrite (normalize_all_throws _ _ _ _ E).
Qed.

(** ** Upload file names *)

Lemma int_text_inj z z' : int_text z = int_text z' → z = z'.
Proof.
  unfold int_text. intros H. apply DecimalZ.to_int_inj.
  assert (Hnn : ∀ n, Z.to_int n ≠ Decimal.Pos Decimal.Nil ∧
                     Z.to_int n ≠ Decimal.Neg Decimal.Nil).
  { intros [|p|p]; simpl; split; try discriminate;
      intros [= Hp]; by apply DecimalPos.Unsigned.to_uint_nonnil in Hp. }
  pose proof (NilZero.isi _ (proj1 (Hnn z)) (proj2 (Hnn z))) as Hz.
  pose proof (NilZero.isi _ (proj1 (Hnn z')) (proj2 (Hnn z'))) as Hz'.
  rewrite H in Hz. congruence.
Qed.

Lemma int_text_digits z : (0 ≤ z)%Z → all_digits (int_text z) = true.
Proof.
  unfold int_text. destruct z as [|p|p]; [done| |lia]. intros _. simpl.
  unfold NilZero.string_of_uint.
  destruct (Pos.to_uint p) eqn:E; try done; rewrite <- E; apply uint_all_digits.
Qed.

(** The text before the first dash and the text after it determine a string
    built as [a +:+ "-" +:+ x] with [a] free of dashes. *)
Lemma dash_prefix_inj a a' x x' :
  has_char "-" a = false → has_char "-" a' = false →
  a +:+ "-" +:+ x = a' +:+ "-" +:+ x' → a = a' ∧ x = x'.
Proof.
  revert a'. induction a as [|c a IH]; intros [|c' a'] Ha Ha' H.
  - by injection H.
  - change (String "-" x = String c' (a' +:+ "-" +:+ x')) in H.
    injection H as <- _. discriminate Ha'.
  - change (String c (a +:+ "-" +:+ x) = String "-" x') in H.
    injection H as -> _. discriminate Ha.
  - change (String c (a +:+ "-" +:+ x) = String c' (a' +:+ "-" +:+ x')) in H.
    injection H as -> H. simpl in Ha, Ha'.
    destruct (Ascii.eqb c' "-"); [done|].
    destruct (IH a' Ha Ha' H) as [-> ->]. done.
Qed.

Lemma app_same_length_inj h h' x x' :
  String.length h = String.length h' → h +:+ x = h' +:+ x' → h = h' ∧ x = x'.
Proof.
  revert h'. induction h as [|c h IH]; intros [|c' h'] Hl H; try discriminate Hl.
  - done.
  - change (String c (h +:+ x) = String c' (h' +:+ x')) in H.
    injection H as -> H. injection Hl as Hl.
    destruct (IH h' Hl H) as [-> ->]. done.
Qed.

(** ** Start-up *)

Lemma ensure_file_spec dk d st :
  (live_exists dk d = true → ensure_file dk d st = (st, Return ())) ∧
  (live_exists dk d = false → write_error (file_of d st) = None →
   ensure_file dk d st =
     (set_file d (mkFile (Some (own (default_of d st))) None
                    (S (writes (file_of d st)))) st,
      Return ())).
Proof.
  unfold ensure_file, writeLive. split; intros ->; [done|]. by intros ->.
Qed.

Ltac finish_ensure :=
  split; [done|]; split; [done|];
  let d := fresh "d" in
  intros d; split; intros ?; destruct d; simpl; first [congruence | done].

(** X23.  [ensureDataFile] creates what is missing and nothing else: when
    the data directory exists or can be made and every missing live file can
    be written, it completes; a live file that was missing then holds the
    default document of its store, a live file that existed is left exactly
    as it was (even one that does not parse), and the default documents are
    untouched. *)
Theorem ensureDataFile_creates_missing_files dk st :
  DATA_DIR_exists dk = true ∨ mkdir_error dk = None →
  (∀ d, live_exists dk d = false → write_error (file_of d st) = None) →
  ∃ st', ensureDataFile dk st = (st', Return ()) ∧
    stored st' = (defaultFleet st, defaultGallery st, DATA_FILE st',
                  GALLERY_FILE st', UPLOAD_DIR st, upload_error st) ∧
    sessions st' = sessions st ∧
    ∀ d, (live_exists dk d = true → file_of d st' = file_of d st) ∧
         (live_exists dk d = false →
          content (file_of d st') = Some (own (default_of d st)) ∧
          writes (file_of d st') = S (writes (file_of d st))).
Proof.
  intros Hdir Hw. unfold ensureDataFile.
  assert ((if DATA_DIR_exists dk then Return ()
           else match mkdir_error dk with
                | Some msg => Throw (mkError msg)
                | None => Return ()
                end) = Return ()) as ->.
  { destruct Hdir as [-> | ->]; [done|]. by destruct (DATA_DIR_exists dk). }
  destruct (ensure_file_spec dk Fleet st) as [HF1 HF0].
  destruct (live_exists dk Fleet) eqn:EF.
  - rewrite HF1 by done.
    destruct (ensure_file_spec dk Gallery st) as [HG1 HG0].
    destruct (live_exists dk Gallery) eqn:EG.
    + rewrite HG1 by done. eexists; split; [reflexivity|].
      finish_ensure.
    + rewrite HG0 by auto. eexists; split; [reflexivity|].
      finish_ensure.
  - rewrite HF0 by auto. set (st1 := set_file Fleet _ st).
    destruct (ensure_file_spec dk Gallery st1) as [HG1 HG0].
    destruct (live_exists dk Gallery) eqn:EG.
    + rewrite HG1 by done. eexists; split; [reflexivity|].
      finish_ensure.
    + rewrite (HG0 eq_refl (Hw Gallery EG)).
      eexists; split; [reflexivity|].
      finish_ensure.
Qed.

(** X24.  [ensureDataFile] does not catch what goes wrong: if the data
    directory is missing and cannot be made, or if a missing live file cannot
    be written, the error is thrown out of the module's top level; a fleet
    file that could not be written leaves the gallery file unvisited. *)
Theorem ensureDataFile_failures dk st msg :
  (DATA_DIR_exists dk = false → mkdir_error dk = Some msg →
   ensureDataFile dk st = (st, Throw (mkError msg))) ∧
  (DATA_DIR_exists dk = true ∨ mkdir_error dk = None →
   live_exists dk Fleet = false → write_error (DATA_FILE st) = Some msg →
   (ensureDataFile dk st).2 = Throw (mkError msg) ∧
   GALLERY_FILE (ensureDataFile dk st).1 = GALLERY_FILE st) ∧
  (DATA_DIR_exists dk = true ∨ mkdir_error dk = None →
   live_exists dk Fleet = true →
   live_exists dk Gallery = false → write_error (GALLERY_FILE st) = Some msg →
   (ensureDataFile dk st).2 = Throw (mkError msg)).
Proof.
  unfold ensureDataFile, ensure_file, writeLive. split; [|split].
  - by intros -> ->.
  - intros Hdir -> Hw. simpl. rewrite Hw.
    destruct Hdir as [-> | ->]; [done|]. by destruct (DATA_DIR_exists dk).
  - intros Hdir -> -> Hw. simpl. rewrite Hw.
    destruct Hdir as [-> | ->]; [done|]. by destruct (DATA_DIR_exists dk).
Qed.

(** ** The routes, one request at a time *)

Lemma own_set_prototype o v : own (set_prototype o v) = own o.
Proof. by destruct v. Qed.

Lemma own_object_set_other o lang v k :
  k ≠ lang → own (object_set o lang v) !! k = own o !! k.
Proof.
  intros Hk.
  assert (Hd : own (define_own o lang v) !! k = own o !! k)
    by (simpl; by rewrite lookup_insert_ne).
  unfold object_set.
  destruct (String.eqb lang "__proto__"); [|done].
  destruct (own o !! lang); [done|].
  destruct (proto o) as [| |p]; rewrite ?own_set_prototype; try done.
  destruct (own_property p lang); by rewrite ?own_set_prototype.
Qed.

Lemma own_object_set_twice m lang v :
  own (object_set (parsed (own (object_set (parsed m) lang v))) lang v)
  = own (object_set (parsed m) lang v).
Proof.
  unfold object_set, parsed. simpl.
  destruct (String.eqb lang "__proto__") eqn:E; simpl.
  - destruct (m !! lang) eqn:Hm; simpl.
    + rewrite lookup_insert_eq. simpl. by rewrite insert_insert_eq.
    + rewrite !own_set_prototype. simpl. rewrite Hm. by rewrite own_set_prototype.
  - by rewrite insert_insert_eq.
Qed.

Section Coverage.

Variable bcrypt_compareSync : string → string → bool.
Variable path_extname : string → string.
Variable toLowerCase : string → string.
Variable env : environment.
Variable multer : multer_library.

#[local] Abbreviation serve := (handle bcrypt_compareSync path_extname toLowerCase env multer).
#[local] Abbreviation verify := (verifyPassword bcrypt_compareSync env).
#[local] Abbreviation table := (routes bcrypt_compareSync path_extname toLowerCase env multer).

(** What a replace or reset that replies 200 has done. *)
Lemma mutation_200 d st req st' r :
  route req = replace_of d ∨ route req = reset_of d → authed req st →
  serve st req = (st', r) → status r = 200 →
  ∃ v, write_error (file_of d st) = None ∧
       store_list d (getLang req) v st = (st', Return (json_reply v)) ∧
       r = json_reply v ∧
       (route req = replace_of d →
        ∃ recs, v = JArr recs ∧
          normalize_all d (Date_now req) (body_array req) = Return recs).
Proof.
  intros [Hr | Hr] Ha.
  - rewrite (replace_outcome _ _ _ _ _ d st req Hr Ha).
    destruct (normalize_all d (Date_now req) (body_array req)) as [recs|e] eqn:En;
      [|intros [= <- <-]; discriminate].
    pose proof (store_list_unfold d (getLang req) (JArr recs) st) as Hu.
    simpl in Hu. destruct (write_error (file_of d st)) eqn:Hw; rewrite Hu;
      intros [= <- <-]; [discriminate|].
    intros _. exists (JArr recs). repeat split; eauto.
  - rewrite (reset_outcome _ _ _ _ _ d st req Hr Ha).
    pose proof (store_list_unfold d (getLang req)
                  (list_or_me (default_of d st) (getLang req)) st) as Hu.
    simpl in Hu. destruct (write_error (file_of d st)) eqn:Hw; rewrite Hu;
      intros [= <- <-]; [discriminate|].
    intros _. eexists. repeat split; eauto.
    intros Hr'. rewrite Hr in Hr'. by destruct d.
Qed.

(** X5.  Submitting again the list a replace returned gives that list back
    unchanged: an authenticated replace that replied 200 with a list, followed
    (in any later state, for any language of the same store) by an
    authenticated replace of that list whose document can be written, replies
    200 with the same list. *)
Theorem replace_of_returned_list_is_identity d st req st' r st2 req2 :
  route req = replace_of d → authed req st →
  serve st req = (st', r) → status r = 200 →
  route req2 = replace_of d → authed req2 st2 →
  body req2 = Some (payload r) → write_error (file_of d st2) = None →
  (serve st2 req2).2 = mkResponse 200 (payload r).
Proof.
  intros Hr Ha Hs H200 Hr2 Ha2 Hb2 Hw2.
  destruct (mutation_200 d st req st' r (or_introl Hr) Ha Hs H200)
    as (v & _ & _ & -> & Hv).
  destruct (Hv Hr) as (recs & -> & Hn). simpl in *.
  rewrite (replace_outcome _ _ _ _ _ d st2 req2 Hr2 Ha2).
  unfold body_array at 1. rewrite Hb2.
  rewrite (normalize_all_idempotent _ _ _ _ _ Hn).
  rewrite store_list_unfold. simpl. by rewrite Hw2.
Qed.

(** X6.  A replace whose normalisation throws (a submitted property that
    [String] cannot convert) is answered 400 with the message of the
    [TypeError] and changes nothing: no file is written and no document, live
    or default, is touched. *)
Theorem replace_that_throws_changes_nothing d st req e :
  route req = replace_of d → authed req st →
  normalize_all d (Date_now req) (body_array req) = Throw e →
  serve st req = (st, error_reply 400 "Cannot convert object to primitive value").
Proof.
  intros Hr Ha Hn. rewrite (replace_outcome _ _ _ _ _ d st req Hr Ha), Hn.
  by rewrite (normalize_all_throws _ _ _ _ Hn).
Qed.

(** X7.  Each language list is independent: a replace or reset that replies
    200 on a readable live document leaves what the document holds under
    every other key as it was. *)
Theorem mutation_leaves_other_languages d st req st' r k :
  route req = replace_of d ∨ route req = reset_of d → authed req st →
  is_Some (content (file_of d st)) →
  serve st req = (st', r) → status r = 200 → k ≠ getLang req →
  object_get (live d st') k = object_get (live d st) k.
Proof.
  intros Hr Ha [m Hm] Hs H200 Hk.
  destruct (mutation_200 d st req st' r Hr Ha Hs H200) as (v & Hw & Hst & _).
  rewrite store_list_unfold in Hst. simpl in Hst. rewrite Hw, Hm in Hst.
  injection Hst as <-.
  unfold live, readLive, readJson. rewrite file_of_set_file, Hm. simpl.
  rewrite !object_get_parsed. by apply own_object_set_other.
Qed.

(** X8.  The two stores are independent: a request to a route of one store
    (list, replace or reset) leaves the file and the default document of the
    other store, the upload directory and the sessions as they were. *)
Theorem store_routes_leave_the_other_store d st req :
  route_of_store d (route req) →
  let st' := (serve st req).1 in
  file_of (other d) st' = file_of (other d) st ∧
  default_of (other d) st' = default_of (other d) st ∧
  UPLOAD_DIR st' = UPLOAD_DIR st ∧ sessions st' = sessions st.
Proof.
  intros [Hr | [Hr | Hr]]; simpl.
  - by rewrite (list_outcome _ _ _ _ _ d st req Hr).
  - destruct (decide (authed req st)) as [Ha | Hn].
    + rewrite (replace_outcome _ _ _ _ _ d st req Hr Ha).
      destruct (normalize_all _ _ _); [|done].
      rewrite store_list_unfold. simpl.
      destruct (write_error (file_of d st)), (content (file_of d st)), d; done.
    + unfold handle. rewrite Hr, routes_replace, requireAuth_deny by done. done.
  - destruct (decide (authed req st)) as [Ha | Hn].
    + rewrite (reset_outcome _ _ _ _ _ d st req Hr Ha).
      rewrite store_list_unfold. simpl.
      destruct (write_error (file_of d st)), (content (file_of d st)), d; done.
    + unfold handle. rewrite Hr, routes_reset, requireAuth_deny by done. done.
Qed.

(** X9.  Reset is idempotent on a readable, writable live document: a
    second identical reset replies what the first replied and leaves the
    document as the first left it; the default document is the same
    throughout. *)
Theorem reset_twice_is_reset_once d st req st1 r1 st2 r2 :
  route req = reset_of d → authed req st →
  is_Some (content (file_of d st)) → write_error (file_of d st) = None →
  serve st req = (st1, r1) → serve st1 req = (st2, r2) →
  r2 = r1 ∧ content (file_of d st2) = content (file_of d st1) ∧
  default_of d st2 = default_of d st.
Proof.
  intros Hr Ha [m Hm] Hw.
  rewrite (reset_outcome _ _ _ _ _ d st req Hr Ha), store_list_unfold.
  simpl. rewrite Hw, Hm. intros [= <- <-].
  set (v := list_or_me (default_of d st) (getLang req)).
  set (st1 := set_file d _ st).
  assert (Hd : default_of d st1 = default_of d st) by (by destruct d).
  assert (Ha1 : authed req st1) by (by destruct d).
  rewrite (reset_outcome _ _ _ _ _ d st1 req Hr Ha1), store_list_unfold. simpl.
  unfold st1 at 1 2 3 4 5. rewrite !file_of_set_file. simpl.
  rewrite Hd. fold v. intros [= <- <-].
  split; [done|]. rewrite file_of_set_file. simpl. split; [|by destruct d].
  assert (Hl : live d st = parsed m)
    by (unfold live, readLive, readJson; by rewrite Hm).
  assert (Hl1 : live d st1 = parsed (own (object_set (parsed m) (getLang req) v))).
  { unfold live, readLive, readJson, st1. rewrite file_of_set_file. simpl.
    by rewrite Hl. }
  unfold st1 at 2. rewrite file_of_set_file. simpl.
  by rewrite Hl1, Hl, own_object_set_twice.
Qed.

(** X10.  When the live file cannot be read, a list is answered from the
    default document, with no error, and the file is left as it is. *)
Theorem list_falls_back_to_default d st req :
  route req = list_of d → content (file_of d st) = None →
  serve st req =
    (st, mkResponse 200 (list_or_me (default_of d st) (getLang req))).
Proof.
  intros Hr Hc. rewrite (list_outcome _ _ _ _ _ d st req Hr).
  unfold live, readLive, readJson. by rewrite Hc.
Qed.

(** X11.  A language for which the live document holds no list is served
    exactly what the language "me" is served. *)
Theorem unconfigured_language_is_served_me d st req req' :
  route req = list_of d → route req' = list_of d → getLang req' = "me" →
  isArray (object_get (live d st) (getLang req)) = false →
  (serve st req).2 = (serve st req').2.
Proof.
  intros Hr Hr' Hme Hna.
  rewrite (list_outcome _ _ _ _ _ d st req Hr), (list_outcome _ _ _ _ _ d st req' Hr').
  rewrite Hme. simpl. f_equal. unfold list_or_me.
  destruct (object_get (live d st) (getLang req)) as [[]|]; try discriminate Hna;
    by destruct (object_get (live d st) "me") as [[]|].
Qed.

(** ** What a request can change *)

Lemma fst_outcome (p : state * completion response) :
  (match p with
   | (s, Return r) => (s, r)
   | (s, Throw e) => (s, error_middleware (Some e))
   end).1 = p.1.
Proof. by destruct p as [? []]. Qed.

(** Every request either leaves the state as it is, or is a verified login,
    a logout, an authenticated replace or reset, or an authenticated upload
    that reached the storage; and then it changes only what that route
    writes. *)
Lemma handle_effect st req :
  let st' := (serve st req).1 in
  st' = st ∨
  (route req = POST_auth_login ∧ submitted_password req ≠ "" ∧
   verify (submitted_password req) = true ∧
   st' = set_sessions (<[cookie req := mkSession (Some true)]> (sessions st)) st) ∨
  (route req = POST_auth_logout ∧
   st' = set_sessions (delete (cookie req) (sessions st)) st) ∨
  (authed req st ∧
   ∃ d v, (route req = replace_of d ∨ route req = reset_of d) ∧
          st' = (store_list d (getLang req) v st).1) ∨
  (authed req st ∧ route req = POST_upload ∧
   ∃ uploads, st' = set_uploads uploads st).
Proof.
  assert (Hmut : ∀ d, route req = replace_of d ∨ route req = reset_of d →
    authed req st →
    (serve st req).1 = st ∨ ∃ v, (serve st req).1 = (store_list d (getLang req) v st).1).
  { intros d [Hr | Hr] Ha.
    - rewrite (replace_outcome _ _ _ _ _ d st req Hr Ha).
      destruct (normalize_all _ _ _) as [recs|]; [|by left].
      right. exists (JArr recs). apply fst_outcome.
    - rewrite (reset_outcome _ _ _ _ _ d st req Hr Ha).
      right. eexists. apply fst_outcome. }
  assert (Hguard : guarded (route req) = true → ¬ authed req st →
    (serve st req).1 = st).
  { intros Hg Hn. unfold handle.
    destruct (route req); try discriminate Hg; simpl;
      by rewrite requireAuth_deny. }
  assert (Hstore : ∀ d, route req = replace_of d ∨ route req = reset_of d →
    (serve st req).1 = st ∨
    authed req st ∧
    ∃ d v, (route req = replace_of d ∨ route req = reset_of d) ∧
           (serve st req).1 = (store_list d (getLang req) v st).1).
  { intros d Hr. destruct (decide (authed req st)) as [Ha | Hn].
    - destruct (Hmut d Hr Ha) as [? | [v Hv]]; [by left|].
      right. split; [done|]. by exists d, v.
    - left. apply Hguard; [|done]. by destruct Hr as [-> | ->], d. }
  cbv zeta. destruct (route req) eqn:Hr.
  - (* login *)
    unfold handle. rewrite Hr. simpl. unfold login_route.
    destruct (String.eqb (submitted_password req) "") eqn:Hp; [by left|].
    destruct (verify (submitted_password req)) eqn:Hv; [|by left].
    right. left. apply String.eqb_neq in Hp. done.
  - left. unfold handle. by rewrite Hr.
  - right. right. left. unfold handle. by rewrite Hr.
  - left. unfold handle. by rewrite Hr.
  - destruct (Hstore Fleet (or_introl eq_refl)) as [? | ?]; [by left|].
    right. right. right. by left.
  - destruct (Hstore Fleet (or_intror eq_refl)) as [? | ?]; [by left|].
    right. right. right. by left.
  - left. unfold handle. by rewrite Hr.
  - destruct (Hstore Gallery (or_introl eq_refl)) as [? | ?]; [by left|].
    right. right. right. by left.
  - destruct (Hstore Gallery (or_intror eq_refl)) as [? | ?]; [by left|].
    right. right. right. by left.
  - (* upload *)
    destruct (decide (authed req st)) as [Ha | Hn];
      [|left; by apply Hguard].
    unfold handle. rewrite Hr. simpl. rewrite requireAuth_pass by done.
    unfold upload_route, upload_single, fileFilter.
    destruct (part req) as [f|] eqn:Hf; [|by left].
    destruct (String.eqb (fieldname f) "image") eqn:Hfield; simpl; [|by left].
    destruct (String.prefix "image/" (mimetype f)) eqn:Hmime; simpl; [|by left].
    destruct (upload_error st) eqn:Hue; simpl; [by left|].
    right. right. right. right. split; [done|]. split; [done|].
    destruct (over_limit multer _); simpl; by eexists.
Qed.

Lemma store_list_frame d lang v st :
  let st' := (store_list d lang v st).1 in
  sessions st' = sessions st ∧ UPLOAD_DIR st' = UPLOAD_DIR st ∧
  upload_error st' = upload_error st ∧
  file_of (other d) st' = file_of (other d) st ∧
  default_of (other d) st' = default_of (other d) st ∧
  writes (file_of d st') = S (writes (file_of d st)) ∧
  (is_Some (content (file_of d st)) →
   default_of d st' = default_of d st ∧ is_Some (content (file_of d st'))).
Proof.
  rewrite store_list_unfold. simpl.
  destruct (write_error (file_of d st)) eqn:Hw,
    (content (file_of d st)) eqn:Hc, d; simpl;
    repeat split; try done; try (by intros [? [=]]); intros _; rewrite ?Hc; eauto.
Qed.

(** X12.  A request touches no session but its own: the session of every
    other cookie is what it was, and only login and logout change the
    session store at all. *)
Theorem requests_touch_only_their_session st req :
  let st' := (handle bcrypt_compareSync path_extname toLowerCase env multer st req).1 in
  (∀ c, c ≠ cookie req → sessions st' !! c = sessions st !! c) ∧
  (route req ≠ POST_auth_login → route req ≠ POST_auth_logout →
   sessions st' = sessions st).
Proof.
  cbv zeta.
  destruct (handle_effect st req)
    as [-> | [(Hr & _ & _ & ->) | [(Hr & ->) | [(_ & d & v & _ & ->) |
        (_ & _ & uploads & ->)]]]]; simpl.
  - done.
  - split; [|done]. intros c Hc. by rewrite lookup_insert_ne.
  - split; [|done]. intros c Hc. by rewrite lookup_delete_ne.
  - destruct (store_list_frame d (getLang req) v st) as (-> & _). done.
  - done.
Qed.

(** X13.  A session becomes authenticated only by a login of its own cookie
    with a non-empty password that verifies. *)
Theorem only_a_verified_login_authenticates st req req' :
  authed req' (serve st req).1 → ¬ authed req' st →
  route req = POST_auth_login ∧ cookie req = cookie req' ∧
  submitted_password req ≠ "" ∧ verify (submitted_password req) = true.
Proof.
  unfold authed, req_session.
  destruct (handle_effect st req)
    as [-> | [(Hr & Hp & Hv & ->) | [(Hr & ->) | [(_ & d & v & _ & ->) |
        (_ & _ & uploads & ->)]]]]; simpl; try done.
  - intros Ha Hn. destruct (decide (cookie req = cookie req')) as [Hc | Hc]; [done|].
    by rewrite lookup_insert_ne in Ha.
  - intros Ha Hn. destruct (decide (cookie req = cookie req')) as [Hc | Hc].
    + by rewrite Hc, lookup_delete_eq in Ha.
    + by rewrite lookup_delete_ne in Ha.
  - destruct (store_list_frame d (getLang req) v st) as (-> & _). done.
Qed.

Lemma stored_set_sessions s st : stored (set_sessions s st) = stored st.
Proof. done. Qed.

(** X14.  A request whose session is not authenticated changes nothing that
    is stored, on any route: the default documents, both files (their write
    counters included) and the upload directory stay as they were. *)
Theorem unauthenticated_requests_store_nothing st req :
  ¬ authed req st → stored (serve st req).1 = stored st.
Proof.
  intros Hn.
  by destruct (handle_effect st req)
    as [-> | [(Hr & _ & _ & ->) | [(Hr & ->) | [(? & _) | (? & _)]]]].
Qed.

Lemma no_admin_not_authed st req : no_admin st → ¬ authed req st.
Proof.
  unfold no_admin, authed, req_session. intros Hno.
  destruct (sessions st !! cookie req) as [s|] eqn:Hs; simpl; [by eapply Hno|done].
Qed.

(** X15.  With no credential configured nobody ever gets in: from a state
    with no authenticated session, after any sequence of requests there is
    still none, and nothing that is stored has changed. *)
Theorem no_credential_no_access st reqs :
  configured (ADMIN_PASSWORD_HASH env) = None →
  configured (ADMIN_PASSWORD env) = None →
  no_admin st →
  let st' := run bcrypt_compareSync path_extname toLowerCase env multer st reqs in
  no_admin st' ∧ stored st' = stored st.
Proof.
  intros Hh Hp. revert st. induction reqs as [|req reqs IH]; intros st Hno; simpl.
  - done.
  - assert (Hstep : no_admin (serve st req).1 ∧ stored (serve st req).1 = stored st).
    { pose proof (no_admin_not_authed st req Hno) as Hn.
      destruct (handle_effect st req)
        as [-> | [(Hr & _ & Hv & _) | [(Hr & ->) | [(? & _) | (? & _)]]]];
        try done.
      - unfold verifyPassword in Hv. by rewrite Hh, Hp in Hv.
      - split; [|done]. intros c s. simpl.
        intros [_ Hs]%lookup_delete_Some. by eapply Hno. }
    destruct Hstep as [Hno' Hst]. destruct (IH _ Hno') as [? Hrun].
    split; [done|]. by rewrite Hrun.
Qed.

(** ** Replies *)

Lemma error_reply_shape code msg :
  msg ≠ "" →
  ∃ m, m ≠ "" ∧ payload (error_reply code msg) = JObj {[ "error" := JStr m ]}.
Proof. intros H. by exists msg. Qed.

Lemma outcome_status (p : state * completion response) :
  (∀ st r, p = (st, Return r) →
     status r = 200 ∨
     (status r = 400 ∨ status r = 401) ∧
     ∃ m, m ≠ "" ∧ payload r = JObj {[ "error" := JStr m ]}) →
  let r := (match p with
            | (s, Return r) => (s, r)
            | (s, Throw e) => (s, error_middleware (Some e))
            end).2 in
  status r = 200 ∨
  (status r = 400 ∨ status r = 401) ∧
  ∃ m, m ≠ "" ∧ payload r = JObj {[ "error" := JStr m ]}.
Proof.
  destruct p as [s [r|e]]; simpl; intros H; [by eapply H|].
  right. split; [by left|]. eexists; split; [|reflexivity].
  by apply or_string_nonempty.
Qed.

Ltac error_shape :=
  right; split; [first [by left | by right]|];
  eexists; split; [|reflexivity]; done.

(** X16.  Every reply is 200, 400 or 401 (never 500), and every reply that
    is not 200 carries a JSON object with the single field "error" holding a
    non-empty message. *)
Theorem replies_are_200_400_or_401 st req :
  let r := (handle bcrypt_compareSync path_extname toLowerCase env multer st req).2 in
  status r = 200 ∨
  (status r = 400 ∨ status r = 401) ∧
  ∃ m, m ≠ "" ∧ payload r = JObj {[ "error" := JStr m ]}.
Proof.
  unfold handle. apply outcome_status. intros st' r.
  assert (Hguarded : ∀ next : handler,
    (∀ st' r, next req st = (st', Return r) →
       status r = 200 ∨
       (status r = 400 ∨ status r = 401) ∧
       ∃ m, m ≠ "" ∧ payload r = JObj {[ "error" := JStr m ]}) →
    requireAuth next req st = (st', Return r) →
    status r = 200 ∨
    (status r = 400 ∨ status r = 401) ∧
    ∃ m, m ≠ "" ∧ payload r = JObj {[ "error" := JStr m ]}).
  { intros next Hnext. unfold requireAuth.
    destruct (truthy _); [by apply Hnext|].
    intros [= <- <-]. error_shape. }
  assert (Hstore : ∀ d lang v st1 r1,
    store_list d lang v st = (st1, Return r1) → status r1 = 200).
  { intros d lang v st1 r1. rewrite store_list_unfold. simpl.
    destruct (write_error (file_of d st)); [done|]. by intros [= <- <-]. }
  assert (Hreplace : ∀ d st1 r1,
    replace_route d req st = (st1, Return r1) → status r1 = 200).
  { intros d st1 r1. unfold replace_route.
    destruct (normalize_all _ _ _); [|done]. apply Hstore. }
  destruct (route req); simpl.
  - unfold login_route.
    destruct (String.eqb _ ""); [intros [= <- <-]; error_shape|].
    destruct (negb _); intros [= <- <-]; [error_shape|by left].
  - intros [= <- <-]. by left.
  - intros [= <- <-]. by left.
  - intros [= <- <-]. by left.
  - apply Hguarded. intros ?? H. left. by eapply Hreplace.
  - apply Hguarded. intros ?? H. left. by eapply Hstore.
  - intros [= <- <-]. by left.
  - apply Hguarded. intros ?? H. left. by eapply Hreplace.
  - apply Hguarded. intros ?? H. left. by eapply Hstore.
  - apply Hguarded. intros st1 r1. unfold upload_route.
    destruct (upload_single _ _ _ _ _) as [s [[name|]|e]]; intros [= <- <-];
      [by left|]. error_shape.
Qed.

(** ** Sessions *)

(** X17.  Logout ends the session of its cookie, whatever state it was in:
    the reply is 200, nothing that is stored changes, and afterwards that
    cookie is refused with 401 on every guarded route and reported
    unauthenticated; a second logout changes nothing more. *)
Theorem logout_ends_the_session st req :
  route req = POST_auth_logout →
  ∃ st', serve st req = (st', mkResponse 200 (JObj {[ "ok" := JBool true ]})) ∧
    stored st' = stored st ∧
    (∀ req', cookie req' = cookie req → guarded (route req') = true →
       serve st' req' = (st', error_reply 401 "Unauthorized")) ∧
    (∀ req', cookie req' = cookie req → route req' = GET_auth_me →
       (serve st' req').2 = mkResponse 200 (JObj {[ "authed" := JBool false ]})) ∧
    serve st' req = (st', mkResponse 200 (JObj {[ "ok" := JBool true ]})).
Proof.
  intros Hr. unfold handle at 1. rewrite Hr. simpl.
  eexists; split; [reflexivity|]. split; [done|].
  set (st' := set_sessions _ st).
  assert (Hout : ∀ req', cookie req' = cookie req → ¬ authed req' st').
  { intros req' Hc. unfold authed, req_session, st'. simpl.
    by rewrite Hc, lookup_delete_eq. }
  split; [|split].
  - intros req' Hc Hg. unfold handle.
    destruct (route req'); try discriminate Hg; simpl;
      by rewrite requireAuth_deny by by apply Hout.
  - intros req' Hc Hme. rewrite (me_outcome _ _ _ _ _ _ _ Hme). simpl.
    by rewrite bool_decide_eq_false_2 by by apply Hout.
  - unfold handle. rewrite Hr. simpl. unfold logout_route, st'. simpl.
    by rewrite delete_delete_eq.
Qed.

(** ** Uploads *)

Lemma over_limit_true lib size : over_limit lib size = true → (fileSize ≤ size)%N.
Proof.
  unfold over_limit. intros [H | [_ H]%andb_true_iff]%orb_true_iff.
  - apply N.ltb_lt in H. lia.
  - apply N.eqb_eq in H. lia.
Qed.

Lemma over_limit_false lib size : over_limit lib size = false → (size ≤ fileSize)%N.
Proof.
  unfold over_limit. intros [H _]%orb_false_iff. by apply N.ltb_ge.
Qed.

Lemma over_limit_beyond lib size : (fileSize < size)%N → over_limit lib size = true.
Proof. unfold over_limit. intros H%N.ltb_lt. by rewrite H. Qed.

(** X18.  What the upload route stores: a reply of 200 means an
    authenticated request carried a file in the field "image" whose content
    type starts with "image/" and whose size is within the limit, and exactly
    that file was written under the generated name, whose URL is returned.
    Any other reply leaves the whole state as it was, with one exception: a
    file cut off by the size limit leaves no file under its generated name,
    so that an earlier upload of that very name is gone. *)
Theorem upload_stores_only_accepted_images st req st' r :
  route req = POST_upload → serve st req = (st', r) →
  (status r = 200 →
   authed req st ∧
   ∃ f, part req = Some f ∧ fieldname f = "image" ∧
        String.prefix "image/" (mimetype f) = true ∧
        (N.of_nat (String.length (bytes f)) ≤ fileSize)%N ∧
        let name := storage_filename path_extname toLowerCase req f in
        st' = set_uploads (<[name := bytes f]> (UPLOAD_DIR st)) st ∧
        payload r = JObj {[ "url" := JStr ("/uploads/" +:+ name) ]}) ∧
  (status r ≠ 200 →
   st' = st ∨
   ∃ f, part req = Some f ∧
        (fileSize ≤ N.of_nat (String.length (bytes f)))%N ∧
        let name := storage_filename path_extname toLowerCase req f in
        st' = set_uploads (delete name (UPLOAD_DIR st)) st).
Proof.
  intros Hr. unfold handle. rewrite Hr. simpl.
  destruct (decide (authed req st)) as [Ha | Hn];
    [|rewrite requireAuth_deny by done; intros [= <- <-]; split; [done|by left]].
  rewrite requireAuth_pass by done.
  unfold upload_route, upload_single, fileFilter.
  destruct (part req) as [f|] eqn:Hf; [|intros [= <- <-]; split; [done|by left]].
  destruct (String.eqb (fieldname f) "image") eqn:Hfield; simpl;
    [|intros [= <- <-]; split; [done|by left]].
  destruct (String.prefix "image/" (mimetype f)) eqn:Hmime; simpl;
    [|intros [= <- <-]; split; [done|by left]].
  destruct (upload_error st) eqn:Hue; simpl;
    [intros [= <- <-]; split; [done|by left]|].
  destruct (over_limit multer _) eqn:Hsize; simpl; intros [= <- <-].
  - split; [done|]. intros _. right. exists f. split; [done|].
    split; [by eapply over_limit_true|done].
  - split; [|done]. intros _. split; [done|].
    exists f. apply String.eqb_eq in Hfield. apply over_limit_false in Hsize. done.
Qed.

(** X19.  Why an authenticated upload is refused, each time with 400.  The
    server's own messages: no file part gives "No file", a content type that
    does not start with "image/" gives "Only images are allowed".  Through
    the catch-all handler: a file in another field, or an image beyond 5 MiB,
    gives the message of multer's error; a failed write into the upload
    directory gives the message of that error ("Bad request" stands in for an
    empty message).  The state is left as it was, except that an image beyond
    5 MiB leaves no file under its generated name. *)
Theorem upload_refusals st req :
  route req = POST_upload → authed req st →
  let thrown msg := error_reply 400 (or_string msg "Bad request") in
  (part req = None → serve st req = (st, error_reply 400 "No file")) ∧
  (∀ f, part req = Some f → fieldname f ≠ "image" →
     serve st req = (st, thrown (LIMIT_UNEXPECTED_FILE multer))) ∧
  (∀ f, part req = Some f → fieldname f = "image" →
     String.prefix "image/" (mimetype f) = false →
     serve st req = (st, error_reply 400 "Only images are allowed")) ∧
  (∀ f msg, part req = Some f → fieldname f = "image" →
     String.prefix "image/" (mimetype f) = true → upload_error st = Some msg →
     serve st req = (st, thrown msg)) ∧
  (∀ f, part req = Some f → fieldname f = "image" →
     String.prefix "image/" (mimetype f) = true → upload_error st = None →
     (fileSize < N.of_nat (String.length (bytes f)))%N →
     let name := storage_filename path_extname toLowerCase req f in
     serve st req =
       (set_uploads (delete name (UPLOAD_DIR st)) st,
        thrown (LIMIT_FILE_SIZE multer))).
Proof.
  intros Hr Ha thrown. unfold handle. rewrite Hr. simpl.
  rewrite requireAuth_pass by done.
  unfold upload_route, upload_single, fileFilter.
  split; [by intros ->|]. split; [|split; [|split]].
  - intros f -> Hf%String.eqb_neq. by rewrite Hf.
  - intros f -> -> ->. done.
  - intros f msg -> -> -> ->. done.
  - intros f -> -> -> -> Hs. simpl. by rewrite over_limit_beyond.
Qed.

(** X20.  Two uploads get the same file name only if they were stamped
    with the same time and drew the same random bytes, whatever the names of
    the uploaded files (times since 1970, twelve hexadecimal characters for
    six random bytes). *)
Theorem storage_filename_collision req f req' f' :
  (0 ≤ Date_now req 0)%Z → (0 ≤ Date_now req' 0)%Z →
  String.length (randomBytes req) = 12 → String.length (randomBytes req') = 12 →
  storage_filename path_extname toLowerCase req f
  = storage_filename path_extname toLowerCase req' f' →
  Date_now req 0 = Date_now req' 0 ∧ randomBytes req = randomBytes req'.
Proof.
  intros Hn Hn' Hl Hl'. unfold storage_filename. intros H.
  apply dash_prefix_inj in H as [Ht Hrest];
    [|by apply digits_no_dash, int_text_digits..].
  apply app_same_length_inj in Hrest as [? _]; [|congruence].
  split; [by apply int_text_inj|done].
Qed.

(** ** Files *)

(** X21.  A request writes at most one document file, at most once: the
    write counter of a store's file moves, by one, only on an authenticated
    replace or reset of that store; lists, logins, logouts, uploads and
    refused requests write no document. *)
Theorem a_request_writes_at_most_once st req d :
  let st' := (serve st req).1 in
  writes (file_of d st') = writes (file_of d st) ∨
  writes (file_of d st') = S (writes (file_of d st)) ∧ authed req st ∧
  (route req = replace_of d ∨ route req = reset_of d).
Proof.
  cbv zeta.
  destruct (handle_effect st req)
    as [-> | [(Hr & _ & _ & ->) | [(Hr & ->) | [(Ha & d0 & v & Hr & ->) |
        (_ & _ & uploads & ->)]]]];
    try (left; by destruct d).
  destruct (store_list_frame d0 (getLang req) v st) as (_ & _ & _ & Ho & _ & Hw & _).
  destruct d, d0; simpl in *; first [by right | left; congruence].
Qed.





(** X25.  After a first start, where a live file was missing and has been
    created, every list of that store is answered from the default document:
    the list the defaults file holds for the language, else its "me" list,
    else the empty list (always the empty list when the defaults file cannot
    be read). *)
Theorem first_start_serves_the_defaults dk fleet gallery uploads uerr st d req :
  startup dk fleet gallery uploads uerr = (st, Return ()) →
  live_exists dk d = false → route req = list_of d →
  let defaults := match d with
                  | Fleet => DEFAULT_FILE dk
                  | Gallery => GALLERY_DEFAULT_FILE dk
                  end in
  serve st req =
    (st, mkResponse 200 (list_or_me (readDefault defaults) (getLang req))) ∧
  (defaults = None → (serve st req).2 = mkResponse 200 (JArr [])).
Proof.
  intros Hs Hd Hr defaults.
  assert (Hlive : live d st = readDefault defaults).
  { unfold startup, ensureDataFile, ensure_file, writeLive in Hs.
    destruct (if DATA_DIR_exists dk then _ else _); [|by destruct d].
    unfold live, readLive, readJson, defaults.
    destruct d; rewrite ?Hd in Hs; simpl in Hs.
    - destruct (write_error fleet); [discriminate Hs|].
      destruct (live_exists dk Gallery); simpl in Hs.
      + by injection Hs as <-.
      + destruct (write_error gallery); [discriminate Hs|]. by injection Hs as <-.
    - destruct (live_exists dk Fleet); simpl in Hs.
      + destruct (write_error gallery); [discriminate Hs|]. by injection Hs as <-.
      + destruct (write_error fleet); [discriminate Hs|]. simpl in Hs.
        destruct (write_error gallery); [discriminate Hs|]. by injection Hs as <-. }
  rewrite (list_outcome _ _ _ _ _ d st req Hr), Hlive. split; [done|].
  by intros ->.
Qed.

End Coverage.

(** ** The further properties on the sample server *)

Lemma normalizeVehicle_alt_fallback_witness :
  normalizeVehicle 1700000000000 car_a_json 0 = Return car_a ∧
  safeString (Get (Some car_a_json) "alt") = Return "" ∧
  v_alt car_a = v_title car_a.
Proof.
  split; [reflexivity|]. split; [reflexivity|].
  apply (proj1 (proj2 (proj2 (normalizeVehicle_alt_fallback 1700000000000
                                car_a_json 0 car_a eq_refl)) eq_refl)).
  discriminate.
Defined.

Lemma normalizeVehicle_idempotent_witness :
  normalizeVehicle 1700000000000 car_a_json 0 = Return car_a ∧
  normalizeVehicle 5 (record_json (vehicle_fields car_a)) 7 = Return car_a.
Proof.
  split; [reflexivity|].
  apply (normalizeVehicle_idempotent 1700000000000 car_a_json 0 car_a 5 7 eq_refl).
Defined.

Lemma normalizeGalleryItem_idempotent_witness :
  normalizeGalleryItem 1700000000000 pair_json 0 = Return pair_item ∧
  normalizeGalleryItem 5 (record_json (gallery_fields pair_item)) 7 = Return pair_item.
Proof.
  split; [reflexivity|].
  apply (normalizeGalleryItem_idempotent 1700000000000 pair_json 0 pair_item 5 7
           eq_refl).
Defined.

Lemma replace_of_returned_list_is_identity_witness :
  let req := sample_request PUT_fleet "s1" (Some "en") (Some (JArr two_cars)) in
  let out := sample_serve sample_admin_state req in
  let req2 := sample_request PUT_fleet "s1" (Some "fr") (Some (payload out.2)) in
  route req = replace_of Fleet ∧ authed req sample_admin_state ∧
  status out.2 = 200 ∧
  route req2 = replace_of Fleet ∧ authed req2 out.1 ∧
  write_error (file_of Fleet out.1) = None ∧
  (sample_serve out.1 req2).2 = mkResponse 200 (payload out.2).
Proof.
  intros req out req2.
  repeat (split; [reflexivity|]).
  apply (replace_of_returned_list_is_identity sample_compare sample_extname
           sample_lower sample_env sample_multer Fleet sample_admin_state req out.1 out.2
           out.1 req2 eq_refl eq_refl (surjective_pairing _) eq_refl
           eq_refl eq_refl eq_refl eq_refl).
Defined.

Lemma replace_that_throws_changes_nothing_witness :
  let req := sample_request PUT_fleet "s1" (Some "en") (Some (JArr [golf; unprintable])) in
  route req = replace_of Fleet ∧ authed req sample_admin_state ∧
  normalize_all Fleet (Date_now req) (body_array req) = Throw TypeError_primitive ∧
  sample_serve sample_admin_state req =
    (sample_admin_state,
     error_reply 400 "Cannot convert object to primitive value").
Proof.
  assert (Hn : normalize_all Fleet sample_clock [golf; unprintable]
               = Throw TypeError_primitive).
  { apply (normalize_all_unprintable_id Fleet sample_clock [golf; unprintable] 1
             unprintable {[ "toString" := JNull ]}); [reflexivity..|].
    by eexists. }
  split; [reflexivity|]. split; [reflexivity|]. split; [exact Hn|].
  apply (replace_that_throws_changes_nothing sample_compare sample_extname
           sample_lower sample_env sample_multer Fleet sample_admin_state
           (sample_request PUT_fleet "s1" (Some "en") (Some (JArr [golf; unprintable])))
           TypeError_primitive eq_refl eq_refl Hn).
Defined.

Lemma mutation_leaves_other_languages_witness :
  let req := sample_request PUT_fleet "s1" (Some "en") (Some (JArr two_cars)) in
  let out := sample_serve sample_admin_state req in
  authed req sample_admin_state ∧
  is_Some (content (file_of Fleet sample_admin_state)) ∧
  status out.2 = 200 ∧ "me" ≠ getLang req ∧
  object_get (live Fleet out.1) "me" = Some (JArr [golf]).
Proof.
  assert (Hc : is_Some (content (file_of Fleet sample_admin_state))) by (by eexists).
  assert (Hk : "me" ≠ getLang (sample_request PUT_fleet "s1" (Some "en")
                                 (Some (JArr two_cars)))) by discriminate.
  split; [reflexivity|]. split; [exact Hc|]. split; [reflexivity|].
  split; [exact Hk|].
  rewrite (mutation_leaves_other_languages sample_compare sample_extname
             sample_lower sample_env sample_multer Fleet sample_admin_state
             (sample_request PUT_fleet "s1" (Some "en") (Some (JArr two_cars)))
             (sample_serve sample_admin_state
                (sample_request PUT_fleet "s1" (Some "en") (Some (JArr two_cars)))).1
             (sample_serve sample_admin_state
                (sample_request PUT_fleet "s1" (Some "en") (Some (JArr two_cars)))).2
             "me" (or_introl eq_refl) eq_refl Hc (surjective_pairing _)
             eq_refl Hk).
  reflexivity.
Defined.

Lemma store_routes_leave_the_other_store_witness :
  let req := sample_request PUT_fleet "s1" (Some "en") (Some (JArr two_cars)) in
  let st' := (sample_serve sample_admin_state req).1 in
  route_of_store Fleet (route req) ∧
  file_of Gallery st' = file_of Gallery sample_admin_state ∧
  default_of Gallery st' = default_of Gallery sample_admin_state ∧
  UPLOAD_DIR st' = UPLOAD_DIR sample_admin_state ∧
  sessions st' = sessions sample_admin_state.
Proof.
  split; [right; left; reflexivity|].
  apply (store_routes_leave_the_other_store sample_compare sample_extname
           sample_lower sample_env sample_multer Fleet sample_admin_state
           (sample_request PUT_fleet "s1" (Some "en") (Some (JArr two_cars)))
           (or_intror (or_introl eq_refl))).
Defined.

Lemma reset_twice_is_reset_once_witness :
  let req := sample_request POST_fleet_reset "s1" (Some "en") None in
  let one := sample_serve sample_admin_state req in
  let two := sample_serve one.1 req in
  route req = reset_of Fleet ∧ authed req sample_admin_state ∧
  is_Some (content (file_of Fleet sample_admin_state)) ∧
  write_error (file_of Fleet sample_admin_state) = None ∧
  two.2 = one.2 ∧ content (file_of Fleet two.1) = content (file_of Fleet one.1) ∧
  default_of Fleet two.1 = default_of Fleet sample_admin_state.
Proof.
  assert (Hc : is_Some (content (file_of Fleet sample_admin_state))) by (by eexists).
  split; [reflexivity|]. split; [reflexivity|]. split; [exact Hc|].
  split; [reflexivity|].
  apply (reset_twice_is_reset_once sample_compare sample_extname sample_lower
           sample_env sample_multer Fleet sample_admin_state
           (sample_request POST_fleet_reset "s1" (Some "en") None)
           (sample_serve sample_admin_state
              (sample_request POST_fleet_reset "s1" (Some "en") None)).1
           (sample_serve sample_admin_state
              (sample_request POST_fleet_reset "s1" (Some "en") None)).2
           _ _ eq_refl eq_refl Hc eq_refl
           (surjective_pairing _) (surjective_pairing _)).
Defined.

Lemma list_falls_back_to_default_witness :
  let req := sample_request GET_fleet "s2" (Some "en") None in
  route req = list_of Fleet ∧
  content (file_of Fleet sample_corrupt_state) = None ∧
  sample_serve sample_corrupt_state req =
    (sample_corrupt_state, mkResponse 200 (JArr [golf; polo])).
Proof.
  split; [reflexivity|]. split; [reflexivity|].
  apply (list_falls_back_to_default sample_compare sample_extname sample_lower
           sample_env sample_multer Fleet sample_corrupt_state
           (sample_request GET_fleet "s2" (Some "en") None) eq_refl eq_refl).
Defined.

Lemma unconfigured_language_is_served_me_witness :
  let req := sample_request GET_fleet "s2" (Some "fr") None in
  let req' := sample_request GET_fleet "s2" None None in
  route req = list_of Fleet ∧ route req' = list_of Fleet ∧ getLang req' = "me" ∧
  isArray (object_get (live Fleet sample_state) (getLang req)) = false ∧
  (sample_serve sample_state req).2 = (sample_serve sample_state req').2.
Proof.
  repeat (split; [reflexivity|]).
  apply (unconfigured_language_is_served_me sample_compare sample_extname
           sample_lower sample_env sample_multer Fleet sample_state
           (sample_request GET_fleet "s2" (Some "fr") None)
           (sample_request GET_fleet "s2" None None)
           eq_refl eq_refl eq_refl eq_refl).
Defined.

Lemma only_a_verified_login_authenticates_witness :
  let req := sample_request POST_auth_login "s2" None (credentials "tuo-admin") in
  let me := sample_request GET_auth_me "s2" None None in
  authed me (sample_serve sample_state req).1 ∧
  (authed me sample_state → False) ∧
  route req = POST_auth_login ∧ cookie req = cookie me ∧
  verifyPassword sample_compare sample_env (submitted_password req) = true.
Proof.
  assert (Hn : ¬ authed (sample_request GET_auth_me "s2" None None) sample_state)
    by discriminate.
  split; [reflexivity|]. split; [exact Hn|].
  destruct (only_a_verified_login_authenticates sample_compare sample_extname
              sample_lower sample_env sample_multer sample_state
              (sample_request POST_auth_login "s2" None (credentials "tuo-admin"))
              (sample_request GET_auth_me "s2" None None) eq_refl Hn)
    as (Hr & Hc & _ & Hv).
  split; [exact Hr|]. split; [exact Hc|exact Hv].
Defined.

Lemma unauthenticated_requests_store_nothing_witness :
  let req := sample_request POST_auth_login "s2" None (credentials "tuo-admin") in
  (authed req sample_state → False) ∧
  stored (sample_serve sample_state req).1 = stored sample_state.
Proof.
  assert (Hn : ¬ authed (sample_request POST_auth_login "s2" None
                           (credentials "tuo-admin")) sample_state)
    by discriminate.
  split; [exact Hn|].
  apply (unauthenticated_requests_store_nothing sample_compare sample_extname
           sample_lower sample_env sample_multer sample_state _ Hn).
Defined.

Lemma sample_state_no_admin : no_admin sample_state.
Proof.
  intros c s H. change ((∅ : gmap string session) !! c = Some s) in H.
  by rewrite lookup_empty in H.
Qed.

Lemma no_credential_no_access_witness :
  let reqs := [sample_request POST_auth_login "s2" None (credentials "tuo-admin");
               sample_request PUT_fleet "s2" (Some "en") (Some (JArr two_cars))] in
  let st' := run sample_compare sample_extname sample_lower open_env sample_multer
               sample_state reqs in
  configured (ADMIN_PASSWORD_HASH open_env) = None ∧
  configured (ADMIN_PASSWORD open_env) = None ∧
  no_admin sample_state ∧
  no_admin st' ∧ stored st' = stored sample_state.
Proof.
  split; [reflexivity|]. split; [reflexivity|].
  split; [exact sample_state_no_admin|].
  apply (no_credential_no_access sample_compare sample_extname sample_lower
           open_env sample_multer sample_state _ eq_refl eq_refl sample_state_no_admin).
Defined.

Lemma logout_ends_the_session_witness :
  let req := sample_request POST_auth_logout "s1" None None in
  let put := sample_request PUT_fleet "s1" (Some "en") (Some (JArr two_cars)) in
  route req = POST_auth_logout ∧
  ∃ st', sample_serve sample_admin_state req
           = (st', mkResponse 200 (JObj {[ "ok" := JBool true ]})) ∧
         sample_serve st' put = (st', error_reply 401 "Unauthorized").
Proof.
  split; [reflexivity|].
  destruct (logout_ends_the_session sample_compare sample_extname sample_lower
              sample_env sample_multer sample_admin_state
              (sample_request POST_auth_logout "s1" None None) eq_refl)
    as (st' & Hs & _ & Hg & _).
  exists st'. split; [exact Hs|]. apply Hg; reflexivity.
Defined.

Lemma upload_stores_only_accepted_images_witness :
  let req := sample_upload "s1" png in
  let out := sample_serve sample_admin_state req in
  route req = POST_upload ∧ status out.2 = 200 ∧ authed req sample_admin_state.
Proof.
  split; [reflexivity|]. split; [reflexivity|].
  apply (proj1 (upload_stores_only_accepted_images sample_compare sample_extname
                  sample_lower sample_env sample_multer sample_admin_state
                  (sample_upload "s1" png) _ _ eq_refl (surjective_pairing _))
           eq_refl).
Defined.

Lemma upload_refusals_witness :
  let req := sample_upload "s1" pdf in
  route req = POST_upload ∧ authed req sample_admin_state ∧
  part req = Some pdf ∧ fieldname pdf = "image" ∧
  String.prefix "image/" (mimetype pdf) = false ∧
  sample_serve sample_admin_state req
    = (sample_admin_state, error_reply 400 "Only images are allowed").
Proof.
  repeat (split; [reflexivity|]).
  apply (proj1 (proj2 (proj2 (upload_refusals sample_compare sample_extname
                                sample_lower sample_env sample_multer sample_admin_state
                                (sample_upload "s1" pdf) eq_refl eq_refl)))
           pdf eq_refl eq_refl eq_refl).
Defined.

Lemma storage_filename_collision_witness :
  let req := sample_upload "s1" png in
  let req' := sample_upload "s2" pdf in
  (0 ≤ Date_now req 0)%Z ∧ (0 ≤ Date_now req' 0)%Z ∧
  String.length (randomBytes req) = 12 ∧ String.length (randomBytes req') = 12 ∧
  storage_filename sample_extname sample_lower req png
    = storage_filename sample_extname sample_lower req' pdf ∧
  Date_now req 0 = Date_now req' 0 ∧ randomBytes req = randomBytes req'.
Proof.
  assert (H0 : (0 ≤ sample_clock 0)%Z) by (vm_compute; discriminate).
  split; [exact H0|]. split; [exact H0|].
  repeat (split; [reflexivity|]).
  apply (storage_filename_collision sample_extname sample_lower
           (sample_upload "s1" png) png (sample_upload "s2" pdf) pdf
           H0 H0 eq_refl eq_refl eq_refl).
Defined.



Lemma sample_disk_writable d :
  live_exists sample_disk d = false →
  write_error (file_of d (mkState (readDefault (DEFAULT_FILE sample_disk))
                            (readDefault (GALLERY_DEFAULT_FILE sample_disk))
                            missing_file missing_file ∅ None ∅)) = None.
Proof. by destruct d. Qed.

Lemma ensureDataFile_creates_missing_files_witness :
  let st := mkState (readDefault (DEFAULT_FILE sample_disk))
              (readDefault (GALLERY_DEFAULT_FILE sample_disk))
              missing_file missing_file ∅ None ∅ in
  (DATA_DIR_exists sample_disk = true ∨ mkdir_error sample_disk = None) ∧
  ∃ st', ensureDataFile sample_disk st = (st', Return ()) ∧
         content (DATA_FILE st') = Some {[ "me" := JArr [golf; polo] ]} ∧
         content (GALLERY_FILE st') = Some ∅.
Proof.
  split; [by right|].
  destruct (ensureDataFile_creates_missing_files sample_disk _
              (or_intror eq_refl) sample_disk_writable)
    as (st' & Hs & _ & _ & Hd).
  exists st'. split; [exact Hs|].
  split; [exact (proj1 (proj2 (Hd Fleet) eq_refl))
         |exact (proj1 (proj2 (Hd Gallery) eq_refl))].
Defined.

Lemma first_start_serves_the_defaults_witness :
  let out := startup sample_disk missing_file missing_file ∅ None in
  let req := sample_request GET_fleet "s2" (Some "en") None in
  out.2 = Return () ∧ live_exists sample_disk Fleet = false ∧
  route req = list_of Fleet ∧
  sample_serve out.1 req = (out.1, mkResponse 200 (JArr [golf; polo])).
Proof.
  repeat (split; [reflexivity|]).
  apply (proj1 (first_start_serves_the_defaults sample_compare sample_extname
                  sample_lower sample_env sample_multer sample_disk missing_file missing_file
                  ∅ None _ Fleet
                  (sample_request GET_fleet "s2" (Some "en") None)
                  (surjective_pairing _) eq_refl eq_refl)).
Defined.
